(** * The Snake game core: Snake, Food and the Game state machine

    A shallow embedding of [Snake.cpp], [Food.cpp] and the game-logic part of
    [Game.cpp] (constructor, [Init], [ProcessInput], [Update], [ResetGame]),
    followed by theorems about the embedded functions.

    Conventions of the embedding.
    - A C++ [int] is a [Z]; every arithmetic operation of the source is
      written with the operations of module [Int], which reduce the exact
      result to the 32-bit two's complement range.  (Signed overflow is
      undefined in C++; the model takes the wrapped result.)  A [GLuint] is
      a [Z] reduced with [UInt.wrap].
    - [std::deque<Position>] is a [list Position], front of the deque first.
    - A call that dereferences a null pointer, reads the front of an empty
      deque, divides by zero or builds a distribution over an empty range
      has no defined result: the model returns [Undefined].
    - The rejection loop of [Food::GenerateNewPosition] is run with a fuel;
      [OutOfFuel] says that the loop was still running when it was used up.
    - Rendering, shader set-up and console output are not modelled. *)

From Stdlib Require Import ZArith List Bool Lia.
Import ListNotations.
Open Scope Z_scope.

(* ================================================================= *)
(** ** Machine integers *)

Module Int.
Definition half_modulus : Z := 2147483648.
Definition modulus : Z := 4294967296.

(** Reduction of an exact result to the range of [int]. *)
Definition wrap (z : Z) : Z := (z + half_modulus) mod modulus - half_modulus.

Definition add (a b : Z) : Z := wrap (a + b).
Definition sub (a b : Z) : Z := wrap (a - b).
Definition mul (a b : Z) : Z := wrap (a * b).
(** C++ division truncates towards zero. *)
Definition div (a b : Z) : Z := wrap (Z.quot a b).

Definition in_range (z : Z) : Prop := - half_modulus <= z < half_modulus.
End Int.

Module UInt.
(** Conversion of an integer value to [unsigned int] / [GLuint]. *)
Definition wrap (z : Z) : Z := z mod Int.modulus.
Definition div (a b : Z) : Z := wrap (a / b).
Definition in_range (z : Z) : Prop := 0 <= z < Int.modulus.
End UInt.

(* ================================================================= *)
(** ** Results of calls *)

Inductive outcome (A : Type) : Type :=
| Done (a : A)
| Undefined
| OutOfFuel.

Arguments Done {A} a.
Arguments Undefined {A}.
Arguments OutOfFuel {A}.

Definition bind {A B : Type} (m : outcome A) (k : A -> outcome B) : outcome B :=
  match m with
  | Done a => k a
  | Undefined => Undefined
  | OutOfFuel => OutOfFuel
  end.

Notation "x <- m ;; k" := (bind m (fun x => k))
  (at level 61, m at next level, right associativity).

(** Dereferencing a pointer that may be [nullptr]. *)
Definition deref {A : Type} (p : option A) : outcome A :=
  match p with
  | Some a => Done a
  | None => Undefined
  end.

(* ================================================================= *)
(** ** Snake.h: Position and Direction *)

Record Position : Type := mkPosition { x : Z; y : Z }.

(** [Position::operator==] *)
Definition Position_eqb (a b : Position) : bool :=
  (x a =? x b) && (y a =? y b).

Inductive Direction : Type := UP | DOWN | LEFT | RIGHT | STOPPED.

Definition Direction_eqb (a b : Direction) : bool :=
  match a, b with
  | UP, UP | DOWN, DOWN | LEFT, LEFT | RIGHT, RIGHT | STOPPED, STOPPED => true
  | _, _ => false
  end.

(** The deque operations the source uses. *)
Definition push_front (p : Position) (d : list Position) : list Position := p :: d.
Definition pop_back (d : list Position) : list Position := removelast d.

(* ================================================================= *)
(** ** Snake.cpp *)

Module Snake.

Record t : Type := mk {
  body : list Position;
  currentDirection : Direction;
  lastMovedDirection : Direction;
  segmentSize : Z;
  growNextMove : bool
}.

Definition set_body (b : list Position) (s : t) : t :=
  mk b (currentDirection s) (lastMovedDirection s) (segmentSize s) (growNextMove s).
Definition set_currentDirection (d : Direction) (s : t) : t :=
  mk (body s) d (lastMovedDirection s) (segmentSize s) (growNextMove s).
Definition set_lastMovedDirection (d : Direction) (s : t) : t :=
  mk (body s) (currentDirection s) d (segmentSize s) (growNextMove s).
Definition set_growNextMove (g : bool) (s : t) : t :=
  mk (body s) (currentDirection s) (lastMovedDirection s) (segmentSize s) g.

(** Default value of the constructor's third parameter (Snake.h). *)
Definition default_segmentSize : Z := 20.

(** [Snake::Snake(int startX, int startY, int segSize)]: the member
    initialisers, then three [push_front] calls. *)
Definition Snake (startX startY segSize : Z) : t :=
  let s0 := mk [] STOPPED STOPPED segSize false in
  let s1 := set_body (push_front (mkPosition startX startY) (body s0)) s0 in
  let s2 := set_body
              (push_front (mkPosition (Int.sub startX (segmentSize s1)) startY)
                          (body s1)) s1 in
  set_body
    (push_front
       (mkPosition (Int.sub startX (Int.mul 2 (segmentSize s2))) startY)
       (body s2)) s2.

(** The [switch] of [Snake::Move] applied to a copy of the head. *)
Definition advance (d : Direction) (seg : Z) (newHead : Position) : Position :=
  match d with
  | UP => mkPosition (x newHead) (Int.sub (y newHead) seg)
  | DOWN => mkPosition (x newHead) (Int.add (y newHead) seg)
  | LEFT => mkPosition (Int.sub (x newHead) seg) (y newHead)
  | RIGHT => mkPosition (Int.add (x newHead) seg) (y newHead)
  | STOPPED => newHead
  end.

(** [Snake::Move] *)
Definition Move (s : t) : outcome t :=
  if Direction_eqb (currentDirection s) STOPPED then Done s
  else
    match body s with
    | [] => Undefined (* body.front() of an empty deque *)
    | front :: _ =>
        let newHead := advance (currentDirection s) (segmentSize s) front in
        let s1 := set_body (push_front newHead (body s)) s in
        let s2 := if growNextMove s1
                  then set_growNextMove false s1
                  else set_body (pop_back (body s1)) s1 in
        Done (set_lastMovedDirection (currentDirection s2) s2)
    end.

(** [Snake::Grow] *)
Definition Grow (s : t) : t := set_growNextMove true s.

(** The reversal test of [Snake::SetDirection]. *)
Definition is_reversal (newDir last : Direction) : bool :=
  (Direction_eqb newDir UP && Direction_eqb last DOWN)
  || (Direction_eqb newDir DOWN && Direction_eqb last UP)
  || (Direction_eqb newDir LEFT && Direction_eqb last RIGHT)
  || (Direction_eqb newDir RIGHT && Direction_eqb last LEFT).

(** [Snake::SetDirection] *)
Definition SetDirection (newDir : Direction) (s : t) : t :=
  if is_reversal newDir (lastMovedDirection s)
     && ((1 <? length (body s))%nat
         && negb (Direction_eqb (lastMovedDirection s) STOPPED))
  then s
  else
    let s1 := if Direction_eqb (currentDirection s) STOPPED
                 && (length (body s) =? 1)%nat
              then set_lastMovedDirection STOPPED s
              else s in
    let s2 := set_currentDirection newDir s1 in
    if Direction_eqb (lastMovedDirection s2) STOPPED
    then set_lastMovedDirection newDir s2
    else s2.

Definition GetDirection (s : t) : Direction := currentDirection s.
Definition GetBody (s : t) : list Position := body s.
Definition GetSegmentSize (s : t) : Z := segmentSize s.

(** [Snake::GetHeadPosition] *)
Definition GetHeadPosition (s : t) : Position :=
  match body s with
  | [] => mkPosition (-1) (-1)
  | front :: _ => front
  end.

(** The [for] loop of [Snake::CheckSelfCollision]: [i] is the loop index,
    [todo] the number of iterations left before [i] reaches [body.size()]. *)
Fixpoint collision_loop (b : list Position) (head : Position)
         (i todo : nat) : bool :=
  match todo with
  | O => false
  | S todo' =>
      match nth_error b i with
      | Some seg =>
          if (x seg =? x head) && (y seg =? y head) then true
          else collision_loop b head (S i) todo'
      | None => false
      end
  end.

(** [Snake::CheckSelfCollision] *)
Definition CheckSelfCollision (s : t) : bool :=
  if (length (body s) <? 2)%nat then false
  else
    match body s with
    | [] => false
    | head :: _ => collision_loop (body s) head 1 (length (body s) - 1)
    end.

End Snake.

(* ================================================================= *)
(** ** The random source used by Food

    [std::mt19937], [std::random_device] and
    [std::uniform_int_distribution<int>] belong to the C++ standard library,
    not to the program.  The embedding takes them as an interface:
    [seed v] is the generator after [rng.seed(v)], and [uniform_int a b r]
    is the value drawn by a distribution over [a..b] from generator state
    [r], with the state the generator is left in. *)

Class RandomSource (R : Type) : Type := {
  seed : Z -> R;
  uniform_int : Z -> Z -> R -> Z * R
}.

(** What the standard guarantees of a draw: it lies in the closed range. *)
Class RandomSourceLaws (R : Type) `{RandomSource R} : Prop := {
  uniform_int_in_range :
    forall (a b : Z) (r : R), a <= b -> a <= fst (uniform_int a b r) <= b
}.

(* ================================================================= *)
(** ** Food.cpp *)

Module Food.

Record t (R : Type) : Type := mk {
  pos : Position;
  boardWidth : Z;
  boardHeight : Z;
  segmentSize : Z;
  rng : R
}.

Arguments mk {R}.
Arguments pos {R}.
Arguments boardWidth {R}.
Arguments boardHeight {R}.
Arguments segmentSize {R}.
Arguments rng {R}.

Section WithRandomSource.
Context {R : Type} `{RandomSource R}.

Definition set_pos_x (v : Z) (f : t R) : t R :=
  mk (mkPosition v (y (pos f))) (boardWidth f) (boardHeight f)
     (segmentSize f) (rng f).
Definition set_pos_y (v : Z) (f : t R) : t R :=
  mk (mkPosition (x (pos f)) v) (boardWidth f) (boardHeight f)
     (segmentSize f) (rng f).
Definition set_rng (r : R) (f : t R) : t R :=
  mk (pos f) (boardWidth f) (boardHeight f) (segmentSize f) r.

(** [Food::Food(int bWidth, int bHeight, int segSize)].  The constructor
    leaves [pos] uninitialised and seeds the generator from
    [std::random_device]: [indeterminate] stands for the content of
    [pos], [rd] for the value the device returns. *)
Definition Food (bWidth bHeight segSize : Z)
           (rd : Z) (indeterminate : Position) : t R :=
  mk indeterminate bWidth bHeight segSize (seed rd).

(** The [while (!positionOK)] loop of [Food::GenerateNewPosition];
    [hiX] and [hiY] are the upper bounds of [distX] and [distY]. *)
Fixpoint GenerateNewPosition_loop (fuel : nat) (snakeBody : list Position)
         (hiX hiY : Z) (f : t R) : outcome (t R) :=
  match fuel with
  | O => OutOfFuel
  | S fuel' =>
      let (cx, r1) := uniform_int 0 hiX (rng f) in
      let f1 := set_pos_x (Int.mul cx (segmentSize f)) (set_rng r1 f) in
      let (cy, r2) := uniform_int 0 hiY (rng f1) in
      let f2 := set_pos_y (Int.mul cy (segmentSize f1)) (set_rng r2 f1) in
      match find (fun segment =>
                    (x segment =? x (pos f2)) && (y segment =? y (pos f2)))
                 snakeBody with
      | None => Done f2
      | Some _ => GenerateNewPosition_loop fuel' snakeBody hiX hiY f2
      end
  end.

(** [Food::GenerateNewPosition] *)
Definition GenerateNewPosition (fuel : nat) (snakeBody : list Position)
           (f : t R) : outcome (t R) :=
  if segmentSize f =? 0 then Undefined (* division by zero *)
  else
    let hiX := Int.sub (Int.div (boardWidth f) (segmentSize f)) 1 in
    let hiY := Int.sub (Int.div (boardHeight f) (segmentSize f)) 1 in
    if (hiX <? 0) || (hiY <? 0)
    then Undefined (* a distribution over (0, b) needs 0 <= b *)
    else GenerateNewPosition_loop fuel snakeBody hiX hiY f.

Definition GetPosition (f : t R) : Position := pos f.

End WithRandomSource.

End Food.

(* ================================================================= *)
(** ** Game.h / Game.cpp *)

Inductive GameState : Type := GAME_ACTIVE | GAME_MENU | GAME_WIN | GAME_OVER.

Definition GameState_eqb (a b : GameState) : bool :=
  match a, b with
  | GAME_ACTIVE, GAME_ACTIVE | GAME_MENU, GAME_MENU
  | GAME_WIN, GAME_WIN | GAME_OVER, GAME_OVER => true
  | _, _ => false
  end.

(** Key codes of GLFW/glfw3.h used by [Game::ProcessInput]. *)
Definition GLFW_KEY_A : Z := 65.
Definition GLFW_KEY_D : Z := 68.
Definition GLFW_KEY_R : Z := 82.
Definition GLFW_KEY_S : Z := 83.
Definition GLFW_KEY_W : Z := 87.
Definition GLFW_KEY_RIGHT : Z := 262.
Definition GLFW_KEY_LEFT : Z := 263.
Definition GLFW_KEY_DOWN : Z := 264.
Definition GLFW_KEY_UP : Z := 265.

Module Game.

(** The game-logic members of [class Game].  [Keys] is the array
    [GLboolean Keys[1024]], read at a key code; the two pointers are
    [None] while they hold [nullptr]. *)
Record t (R : Type) : Type := mk {
  State : GameState;
  Keys : Z -> bool;
  Width : Z;
  Height : Z;
  PlayerSnake : option Snake.t;
  GameFood : option (Food.t R)
}.

Arguments mk {R}.
Arguments State {R}.
Arguments Keys {R}.
Arguments Width {R}.
Arguments Height {R}.
Arguments PlayerSnake {R}.
Arguments GameFood {R}.

Section WithRandomSource.
Context {R : Type} `{RandomSource R}.

Definition set_State (st : GameState) (g : t R) : t R :=
  mk st (Keys g) (Width g) (Height g) (PlayerSnake g) (GameFood g).
Definition set_PlayerSnake (p : option Snake.t) (g : t R) : t R :=
  mk (State g) (Keys g) (Width g) (Height g) p (GameFood g).
Definition set_GameFood (p : option (Food.t R)) (g : t R) : t R :=
  mk (State g) (Keys g) (Width g) (Height g) (PlayerSnake g) p.

(** [Game::Game(GLuint width, GLuint height)] *)
Definition Game (width height : Z) : t R :=
  mk GAME_ACTIVE (fun _ => false) width height None None.

(** The object construction shared, statement for statement, by
    [Game::Init] and [Game::ResetGame]:
    [PlayerSnake = new Snake(Width / 2, Height / 2);]
    [GameFood = new Food(Width, Height, PlayerSnake->GetSegmentSize());]
    [GameFood->GenerateNewPosition(PlayerSnake->GetBody());]
    [this->State = GAME_ACTIVE;] *)
Definition create_objects (fuel : nat) (rd : Z) (indeterminate : Position)
           (g : t R) : outcome (t R) :=
  let g1 := set_PlayerSnake
              (Some (Snake.Snake (Int.wrap (UInt.div (Width g) 2))
                                 (Int.wrap (UInt.div (Height g) 2))
                                 Snake.default_segmentSize)) g in
  snake <- deref (PlayerSnake g1) ;;
  let g2 := set_GameFood
              (Some (Food.Food (Int.wrap (Width g1)) (Int.wrap (Height g1))
                               (Snake.GetSegmentSize snake)
                               rd indeterminate)) g1 in
  food <- deref (GameFood g2) ;;
  snake' <- deref (PlayerSnake g2) ;;
  food' <- Food.GenerateNewPosition fuel (Snake.GetBody snake') food ;;
  Done (set_State GAME_ACTIVE (set_GameFood (Some food') g2)).

(** [Game::Init] (after [compileShaders] and [initRenderData]). *)
Definition Init (fuel : nat) (rd : Z) (indeterminate : Position)
           (g : t R) : outcome (t R) :=
  create_objects fuel rd indeterminate g.

(** [Game::ResetGame]: the two [delete]s free the old objects, then the
    same statements as [Init]. *)
Definition ResetGame (fuel : nat) (rd : Z) (indeterminate : Position)
           (g : t R) : outcome (t R) :=
  let g0 := set_GameFood None (set_PlayerSnake None g) in
  create_objects fuel rd indeterminate g0.

(** One [if (Keys[..] || Keys[..]) PlayerSnake->SetDirection(d);] *)
Definition steer (k1 k2 : Z) (d : Direction) (g : t R) : outcome (t R) :=
  if Keys g k1 || Keys g k2
  then snake <- deref (PlayerSnake g) ;;
       Done (set_PlayerSnake (Some (Snake.SetDirection d snake)) g)
  else Done g.

(** [Game::ProcessInput] *)
Definition ProcessInput (fuel : nat) (rd : Z) (indeterminate : Position)
           (g : t R) : outcome (t R) :=
  if GameState_eqb (State g) GAME_ACTIVE then
    g1 <- steer GLFW_KEY_W GLFW_KEY_UP UP g ;;
    g2 <- steer GLFW_KEY_S GLFW_KEY_DOWN DOWN g1 ;;
    g3 <- steer GLFW_KEY_A GLFW_KEY_LEFT LEFT g2 ;;
    steer GLFW_KEY_D GLFW_KEY_RIGHT RIGHT g3
  else if GameState_eqb (State g) GAME_OVER then
    if Keys g GLFW_KEY_R
    then ResetGame fuel rd indeterminate g
    else Done g
  else Done g.

(** The wall test of [Game::Update].  [head.x + segmentSize] is an
    [int]; compared with the [GLuint] member it is converted to
    [unsigned int]. *)
Definition hits_wall (head : Position) (segmentSize : Z) (g : t R) : bool :=
  (x head <? 0)
  || (UInt.wrap (Int.add (x head) segmentSize) >? Width g)
  || (y head <? 0)
  || (UInt.wrap (Int.add (y head) segmentSize) >? Height g).

(** [Game::Update] *)
Definition Update (fuel : nat) (g : t R) : outcome (t R) :=
  if negb (GameState_eqb (State g) GAME_ACTIVE) then Done g
  else
    snake <- deref (PlayerSnake g) ;;
    snake1 <- Snake.Move snake ;;
    let g1 := set_PlayerSnake (Some snake1) g in
    food <- deref (GameFood g1) ;;
    g2 <- (if (x (Snake.GetHeadPosition snake1) =? x (Food.GetPosition food))
              && (y (Snake.GetHeadPosition snake1) =? y (Food.GetPosition food))
           then
             let snake2 := Snake.Grow snake1 in
             food' <- Food.GenerateNewPosition fuel (Snake.GetBody snake2) food ;;
             Done (set_GameFood (Some food')
                     (set_PlayerSnake (Some snake2) g1))
           else Done g1) ;;
    snake3 <- deref (PlayerSnake g2) ;;
    let g3 := if Snake.CheckSelfCollision snake3
              then set_State GAME_OVER g2 else g2 in
    let head := Snake.GetHeadPosition snake3 in
    let segmentSize := Snake.GetSegmentSize snake3 in
    Done (if hits_wall head segmentSize g3
          then set_State GAME_OVER g3 else g3).

End WithRandomSource.

End Game.

(* ================================================================= *)
(** ** Game.cpp: Render

    [Game::Render] hands rectangles to [DrawRectangle], whose body is
    OpenGL calls.  The embedding keeps the calls [Render] makes, in order,
    with their arguments; the conversion [static_cast<float>] of an [int]
    and the two literals [0.0f] and [1.0f] are taken as an interface. *)

Class FloatCast (F : Type) : Type := {
  static_cast_float : Z -> F;
  float_0 : F;
  float_1 : F
}.

Inductive DrawCall (F : Type) : Type :=
| DrawRectangle (rect_x rect_y rectWidth rectHeight red green blue : F).

Arguments DrawRectangle {F}.

Module GameRender.
Section WithFloat.
Context {R : Type} {F : Type} `{FloatCast F}.

(** [Game::Render]: the list of [DrawRectangle] calls of one frame. *)
Definition Render (g : Game.t R) : outcome (list (DrawCall F)) :=
  if GameState_eqb (Game.State g) GAME_ACTIVE
     || GameState_eqb (Game.State g) GAME_OVER
  then
    snake <- deref (Game.PlayerSnake g) ;;
    let segments :=
      map (fun segment =>
             DrawRectangle (static_cast_float (x segment))
                           (static_cast_float (y segment))
                           (static_cast_float (Snake.GetSegmentSize snake))
                           (static_cast_float (Snake.GetSegmentSize snake))
                           float_0 float_1 float_0)
          (Snake.GetBody snake) in
    food <- deref (Game.GameFood g) ;;
    Done (segments
          ++ [DrawRectangle (static_cast_float (x (Food.GetPosition food)))
                            (static_cast_float (y (Food.GetPosition food)))
                            (static_cast_float (Snake.GetSegmentSize snake))
                            (static_cast_float (Snake.GetSegmentSize snake))
                            float_1 float_0 float_0])
  else Done [].

End WithFloat.
End GameRender.

(* ================================================================= *)
(** ** main.cpp: key callback and game loop

    Window and context creation are outside the embedding.  What is kept of
    the window is its should-close flag; [glfwPollEvents] is the list of
    key events (key, action) it dispatches to [key_callback] in one frame. *)

Definition GLFW_RELEASE : Z := 0.
Definition GLFW_PRESS : Z := 1.
Definition GLFW_REPEAT : Z := 2.
Definition GLFW_KEY_ESCAPE : Z := 256.

Module Main.

Definition WIDTH : Z := 800.
Definition HEIGHT : Z := 600.

(** The state the callbacks and the loop act on: the should-close flag of
    the window and the global [snakeGame]. *)
Record t (R : Type) : Type := mk {
  shouldClose : bool;
  snakeGame : Game.t R
}.

Arguments mk {R}.
Arguments shouldClose {R}.
Arguments snakeGame {R}.

(** What the environment supplies to one iteration of the loop: the key
    events polled, the fuel of the food loop, and the random-device value
    and indeterminate position a reset would use. *)
Record FrameInput : Type := mkFrameInput {
  events : list (Z * Z);
  fuel : nat;
  rd : Z;
  indeterminate : Position
}.

Section WithRandomSource.
Context {R : Type} `{RandomSource R}.

(** [snakeGame.Keys[key] = v] *)
Definition set_key (key : Z) (v : bool) (g : Game.t R) : Game.t R :=
  Game.mk (Game.State g)
          (fun k => if k =? key then v else Game.Keys g k)
          (Game.Width g) (Game.Height g)
          (Game.PlayerSnake g) (Game.GameFood g).

(** [key_callback(window, key, scancode, action, mode)] *)
Definition key_callback (key action : Z) (m : t R) : t R :=
  let m1 := if (key =? GLFW_KEY_ESCAPE) && (action =? GLFW_PRESS)
            then mk true (snakeGame m) else m in
  if (0 <=? key) && (key <? 1024) then
    if action =? GLFW_PRESS
    then mk (shouldClose m1) (set_key key true (snakeGame m1))
    else if action =? GLFW_RELEASE
    then mk (shouldClose m1) (set_key key false (snakeGame m1))
    else m1
  else m1.

(** [glfwPollEvents()]: the callback runs once per event, in order. *)
Definition glfwPollEvents (evs : list (Z * Z)) (m : t R) : t R :=
  fold_left (fun m' ev => key_callback (fst ev) (snd ev) m') evs m.

Section WithFloat.
Context {F : Type} `{FloatCast F}.

(** The body of the [while] loop of [main]: poll, [ProcessInput],
    [Update], [Render]. *)
Definition loop_body (i : FrameInput) (m : t R) : outcome (t R) :=
  let m1 := glfwPollEvents (events i) m in
  g1 <- Game.ProcessInput (fuel i) (rd i) (indeterminate i) (snakeGame m1) ;;
  g2 <- Game.Update (fuel i) g1 ;;
  _ <- GameRender.Render (F := F) g2 ;;
  Done (mk (shouldClose m1) g2).

(** [while (!glfwWindowShouldClose(window)) { ... }], run on the frames
    the environment supplies; when they are used up the state reached is
    returned. *)
Fixpoint main_loop (inputs : list FrameInput) (m : t R) : outcome (t R) :=
  if shouldClose m then Done m
  else
    match inputs with
    | [] => Done m
    | i :: rest => m' <- loop_body i m ;; main_loop rest m'
    end.

(** [main], from [snakeGame.Init()] on; [init] supplies what [Init]
    takes from the environment. *)
Definition main (init : FrameInput) (inputs : list FrameInput) : outcome (t R) :=
  g <- Game.Init (fuel init) (rd init) (indeterminate init)
         (Game.Game WIDTH HEIGHT) ;;
  main_loop inputs (mk false g).

End WithFloat.
End WithRandomSource.

End Main.

(* ================================================================= *)
(** ** A concrete random source

    A linear congruential generator, used to run the embedded functions on
    concrete inputs. *)

Definition lcg_next (r : Z) : Z := (r * 1103515245 + 12345) mod 2147483648.

#[export] Instance lcg : RandomSource Z := {|
  seed := fun v => v mod 2147483648;
  uniform_int := fun a b r => (a + r mod (b - a + 1), lcg_next r)
|}.

(** A stand-in for [float] that keeps every [int] exactly, used to run
    [Render] on concrete inputs. *)
#[export] Instance exact_float : FloatCast Z := {|
  static_cast_float := fun z => z;
  float_0 := 0;
  float_1 := 1
|}.

(* ================================================================= *)
(** ** Statements of the specification, in its own words *)

(** "requested is the exact opposite of lastMovedDirection (UP<->DOWN,
    LEFT<->RIGHT)". *)
Definition opposite (requested last : Direction) : Prop :=
  (requested = UP /\ last = DOWN) \/ (requested = DOWN /\ last = UP)
  \/ (requested = LEFT /\ last = RIGHT) \/ (requested = RIGHT /\ last = LEFT).

(** The condition under which the specification has [SetDirection] reject
    a request. *)
Definition rejects (requested : Direction) (s : Snake.t) : Prop :=
  opposite requested (Snake.lastMovedDirection s)
  /\ (1 < length (Snake.body s))%nat
  /\ Snake.lastMovedDirection s <> STOPPED.

(** "The empty body is signalled by a distinguished result": no snake with
    a segment can make [GetHeadPosition] return what the empty one does. *)
Definition empty_body_is_distinguished : Prop :=
  forall s1 s2 : Snake.t,
    Snake.body s1 = [] -> Snake.body s2 <> [] ->
    Snake.GetHeadPosition s1 <> Snake.GetHeadPosition s2.

(** A position whose two coordinates are values of type [int]. *)
Definition representable (p : Position) : Prop :=
  Int.in_range (x p) /\ Int.in_range (y p).

(** "Offset by [dist] in direction [d]", in exact arithmetic; the y axis
    points down the window, so [UP] decreases y. *)
Definition displaced (d : Direction) (dist : Z) (p : Position) : Position :=
  match d with
  | UP => mkPosition (x p) (y p - dist)
  | DOWN => mkPosition (x p) (y p + dist)
  | LEFT => mkPosition (x p - dist) (y p)
  | RIGHT => mkPosition (x p + dist) (y p)
  | STOPPED => p
  end.

(** [n] consecutive calls of [Move]. *)
Fixpoint Move_n (n : nat) (s : Snake.t) : outcome Snake.t :=
  match n with
  | O => Done s
  | S n' => s1 <- Snake.Move s ;; Move_n n' s1
  end.

(** The state-changing calls a client can make on a snake, and sequences
    of them. *)
Inductive SnakeCall : Type :=
| CallSetDirection (d : Direction)
| CallGrow
| CallMove.

Definition call (c : SnakeCall) (s : Snake.t) : outcome Snake.t :=
  match c with
  | CallSetDirection d => Done (Snake.SetDirection d s)
  | CallGrow => Done (Snake.Grow s)
  | CallMove => Snake.Move s
  end.

Fixpoint calls (cs : list SnakeCall) (s : Snake.t) : outcome Snake.t :=
  match cs with
  | [] => Done s
  | c :: cs' => s1 <- call c s ;; calls cs' s1
  end.

(** The grid cells of a food's board, as pixel positions: cell indices
    run over [0 .. boardWidth/segmentSize - 1] and
    [0 .. boardHeight/segmentSize - 1]. *)
Definition grid_cell {R : Type} (f : Food.t R) (p : Position) : Prop :=
  exists cx cy : Z,
    0 <= cx <= Z.quot (Food.boardWidth f) (Food.segmentSize f) - 1
    /\ 0 <= cy <= Z.quot (Food.boardHeight f) (Food.segmentSize f) - 1
    /\ p = mkPosition (cx * Food.segmentSize f) (cy * Food.segmentSize f).

(** "The snake body leaves at least one free grid cell". *)
Definition leaves_free_cell {R : Type} (f : Food.t R)
           (snakeBody : list Position) : Prop :=
  exists p : Position, grid_cell f p /\ ~ In p snakeBody.

(** "The head segment does not lie fully inside the board": the four
    comparisons of the specification, in exact arithmetic. *)
Definition outside_board (head : Position) (segmentSize width height : Z) : Prop :=
  x head < 0 \/ x head + segmentSize > width
  \/ y head < 0 \/ y head + segmentSize > height.

Definition outside_boardb (head : Position) (segmentSize width height : Z) : bool :=
  (x head <? 0) || (x head + segmentSize >? width)
  || (y head <? 0) || (y head + segmentSize >? height).

Section UpdateInWords.
Context {R : Type} `{RandomSource R}.

(** Step 2 of the specification's [Update]: "if the snake head position
    equals the food position, Snake.Grow() and
    Food.GenerateNewPosition(snake body)". *)
Definition step_eat (fuel : nat) (snake : Snake.t) (food : Food.t R)
  : outcome (Snake.t * Food.t R) :=
  if Position_eqb (Snake.GetHeadPosition snake) (Food.GetPosition food)
  then food' <- Food.GenerateNewPosition fuel (Snake.body snake) food ;;
       Done (Snake.Grow snake, food')
  else Done (snake, food).

(** Step 3: "if Snake.CheckSelfCollision() then State becomes OVER". *)
Definition step_self_collision (snake : Snake.t) (st : GameState) : GameState :=
  if Snake.CheckSelfCollision snake then GAME_OVER else st.

(** Step 4: "if the head segment does not lie fully inside the board then
    State becomes OVER". *)
Definition step_wall (snake : Snake.t) (width height : Z) (st : GameState)
  : GameState :=
  if outside_boardb (Snake.GetHeadPosition snake) (Snake.segmentSize snake)
                    width height
  then GAME_OVER else st.

(** The four steps of an active tick, in the specification's order, for a
    game whose snake is [snake] and whose food is [food]. *)
Definition Update_in_words (fuel : nat) (g : Game.t R)
           (snake : Snake.t) (food : Food.t R) : outcome (Game.t R) :=
  snake1 <- Snake.Move snake ;;
  eaten <- step_eat fuel snake1 food ;;
  let st3 := step_self_collision (fst eaten) (Game.State g) in
  let st4 := step_wall (fst eaten) (Game.Width g) (Game.Height g) st3 in
  Done (Game.mk st4 (Game.Keys g) (Game.Width g) (Game.Height g)
                (Some (fst eaten)) (Some (snd eaten))).

(** The scenario "food at the current head position before Update(); one
    Update() gives body length +1 and a new food position disjoint from
    the new body", as a statement about every such game. *)
Definition eating_grows_at_once : Prop :=
  forall (fuel : nat) (g g' : Game.t R) (snake snake' : Snake.t)
         (food food' : Food.t R),
    Game.State g = GAME_ACTIVE ->
    Game.PlayerSnake g = Some snake ->
    Game.GameFood g = Some food ->
    Food.GetPosition food = Snake.GetHeadPosition snake ->
    Game.Update fuel g = Done g' ->
    Game.PlayerSnake g' = Some snake' ->
    Game.GameFood g' = Some food' ->
    length (Snake.body snake') = S (length (Snake.body snake))
    /\ ~ In (Food.GetPosition food') (Snake.body snake').

End UpdateInWords.

(** Two positions one move apart: [a] is [b] advanced by one segment size
    in a cardinal direction. *)
Definition one_step (seg : Z) (a b : Position) : Prop :=
  exists d : Direction, d <> STOPPED /\ a = Snake.advance d seg b.

(** A body in which every segment is one move from the segment behind it. *)
Fixpoint connected (seg : Z) (b : list Position) : Prop :=
  match b with
  | p :: rest =>
      match rest with
      | q :: _ => one_step seg p q /\ connected seg rest
      | [] => True
      end
  | [] => True
  end.

(** [SetDirection d] when the key is held, nothing otherwise. *)
Definition turn_if (held : bool) (d : Direction) (s : Snake.t) : Snake.t :=
  if held then Snake.SetDirection d s else s.

(** A game as [Init] leaves it and the loop keeps it: both objects
    allocated, a snake of at least three segments of size 20, a food built
    for the size of the board, a board of at least one cell each way. *)
Definition playable {R : Type} (g : Game.t R) : Prop :=
  exists (snake : Snake.t) (food : Food.t R),
    Game.PlayerSnake g = Some snake
    /\ Game.GameFood g = Some food
    /\ (3 <= length (Snake.body snake))%nat
    /\ Snake.segmentSize snake = 20
    /\ Food.boardWidth food = Int.wrap (Game.Width g)
    /\ Food.boardHeight food = Int.wrap (Game.Height g)
    /\ Food.segmentSize food = 20
    /\ 0 <= Int.sub (Int.div (Int.wrap (Game.Width g)) 20) 1
    /\ 0 <= Int.sub (Int.div (Int.wrap (Game.Height g)) 20) 1.

Section Draws.
Context {R : Type} `{RandomSource R}.

(** The cell that one iteration of the loop of [GenerateNewPosition] draws
    from generator state [r], in pixels, with the state the generator is
    left in: a draw for x, then a draw for y. *)
Definition drawn_cell (hiX hiY seg : Z) (r : R) : Position * R :=
  let (cx, r1) := uniform_int 0 hiX r in
  let (cy, r2) := uniform_int 0 hiY r1 in
  (mkPosition (Int.mul cx seg) (Int.mul cy seg), r2).

(** The generator state after [n] iterations of the loop. *)
Fixpoint rng_after (hiX hiY seg : Z) (n : nat) (r : R) : R :=
  match n with
  | O => r
  | S n' => rng_after hiX hiY seg n' (snd (drawn_cell hiX hiY seg r))
  end.

End Draws.

(** Whether a key event is a press or a release, the two actions
    [key_callback] stores. *)
Definition press_or_release (action : Z) : Prop :=
  action = GLFW_PRESS \/ action = GLFW_RELEASE.

(* ================================================================= *)
(** ** Basic facts: machine integers, equality tests *)

Lemma Int_wrap_id (z : Z) : Int.in_range z -> Int.wrap z = z.
Proof.
  unfold Int.in_range, Int.wrap, Int.half_modulus, Int.modulus. intros Hz.
  rewrite Z.mod_small; lia.
Qed.

Lemma Int_wrap_in_range (z : Z) : Int.in_range (Int.wrap z).
Proof.
  unfold Int.in_range, Int.wrap, Int.half_modulus, Int.modulus.
  pose proof (Z.mod_pos_bound (z + 2147483648) 4294967296). lia.
Qed.

Lemma UInt_wrap_Int_wrap (z : Z) : UInt.wrap (Int.wrap z) = UInt.wrap z.
Proof.
  unfold UInt.wrap, Int.wrap, Int.half_modulus, Int.modulus.
  rewrite Zminus_mod_idemp_l.
  f_equal. lia.
Qed.

Lemma UInt_wrap_id (z : Z) : UInt.in_range z -> UInt.wrap z = z.
Proof.
  unfold UInt.in_range, UInt.wrap. intros Hz. now apply Z.mod_small.
Qed.

Lemma Direction_eqb_eq (a b : Direction) : Direction_eqb a b = true <-> a = b.
Proof. destruct a, b; simpl; split; congruence. Qed.

Lemma Direction_eqb_neq (a b : Direction) : Direction_eqb a b = false <-> a <> b.
Proof. destruct a, b; simpl; split; congruence. Qed.

Lemma GameState_eqb_eq (a b : GameState) : GameState_eqb a b = true <-> a = b.
Proof. destruct a, b; simpl; split; congruence. Qed.

Lemma GameState_eqb_neq (a b : GameState) : GameState_eqb a b = false <-> a <> b.
Proof. destruct a, b; simpl; split; congruence. Qed.

Lemma Position_eqb_eq (a b : Position) : Position_eqb a b = true <-> a = b.
Proof.
  destruct a as [ax ay], b as [bx by']. unfold Position_eqb. simpl.
  rewrite andb_true_iff, !Z.eqb_eq. split.
  - intros [-> ->]. reflexivity.
  - intros E. injection E. auto.
Qed.

Lemma coords_eqb_eq (a b : Position) :
  (x a =? x b) && (y a =? y b) = true <-> a = b.
Proof. exact (Position_eqb_eq a b). Qed.

Lemma opposite_is_reversal (requested last : Direction) :
  Snake.is_reversal requested last = true <-> opposite requested last.
Proof.
  unfold opposite. destruct requested, last; simpl; split; intros Hr;
    try discriminate; try tauto;
    repeat match goal with
           | H : _ \/ _ |- _ => destruct H
           | H : _ /\ _ |- _ => destruct H
           end; congruence.
Qed.

(* ================================================================= *)
(** ** Snake: construction *)

(** What the constructor builds, for all arguments: each [push_front] puts
    its segment before the ones already there. *)
Lemma Snake_constructor_state (startX startY segSize : Z) :
  Snake.Snake startX startY segSize =
  Snake.mk [ mkPosition (Int.sub startX (Int.mul 2 segSize)) startY;
             mkPosition (Int.sub startX segSize) startY;
             mkPosition startX startY ]
           STOPPED STOPPED segSize false.
Proof. reflexivity. Qed.

(** C1.  The claim puts the head (front of the body) of a fresh snake at
    (startX, startY) and has the body of [Snake(400, 300, 20)] be
    [(400,300); (380,300); (360,300)] front to back.  The constructor
    evaluates to the reverse order: the three [push_front] calls leave the
    segment pushed last, (360,300), at the front, so the head is two
    segments to the left of (400,300).  Length, alignment, spacing,
    directions and growth flag are as claimed. *)
Theorem Snake_constructor_400_300_20 :
  Snake.body (Snake.Snake 400 300 20)
    = [mkPosition 360 300; mkPosition 380 300; mkPosition 400 300]
  /\ Snake.GetHeadPosition (Snake.Snake 400 300 20) = mkPosition 360 300
  /\ Snake.GetHeadPosition (Snake.Snake 400 300 20) <> mkPosition 400 300
  /\ Snake.body (Snake.Snake 400 300 20)
       <> [mkPosition 400 300; mkPosition 380 300; mkPosition 360 300]
  /\ length (Snake.body (Snake.Snake 400 300 20)) = 3%nat
  /\ Snake.currentDirection (Snake.Snake 400 300 20) = STOPPED
  /\ Snake.lastMovedDirection (Snake.Snake 400 300 20) = STOPPED
  /\ Snake.growNextMove (Snake.Snake 400 300 20) = false.
Proof.
  repeat split; try reflexivity; vm_compute; discriminate.
Qed.

(** What the order means in play: the first move of a fresh snake to the
    RIGHT puts the head on the segment that was second. *)
Lemma fresh_snake_moving_right_collides :
  exists s : Snake.t,
    Snake.Move (Snake.SetDirection RIGHT (Snake.Snake 400 300 20)) = Done s
    /\ Snake.body s = [mkPosition 380 300; mkPosition 360 300; mkPosition 380 300]
    /\ Snake.CheckSelfCollision s = true.
Proof. eexists. repeat split. Qed.

(* ================================================================= *)
(** ** Snake: direction arbitration *)

Lemma rejects_test (requested : Direction) (s : Snake.t) :
  Snake.is_reversal requested (Snake.lastMovedDirection s)
  && ((1 <? length (Snake.body s))%nat
      && negb (Direction_eqb (Snake.lastMovedDirection s) STOPPED)) = true
  <-> rejects requested s.
Proof.
  unfold rejects.
  rewrite !andb_true_iff, opposite_is_reversal, Nat.ltb_lt, negb_true_iff,
    Direction_eqb_neq.
  reflexivity.
Qed.

Lemma SetDirection_rejected (requested : Direction) (s : Snake.t) :
  rejects requested s -> Snake.SetDirection requested s = s.
Proof.
  intros Hrej. apply rejects_test in Hrej.
  unfold Snake.SetDirection. now rewrite Hrej.
Qed.

Lemma SetDirection_accepted (requested : Direction) (s : Snake.t) :
  ~ rejects requested s ->
  Snake.SetDirection requested s =
  Snake.mk (Snake.body s) requested
    (if Direction_eqb (Snake.lastMovedDirection s) STOPPED
        || (Direction_eqb (Snake.currentDirection s) STOPPED
            && (length (Snake.body s) =? 1)%nat)
     then requested else Snake.lastMovedDirection s)
    (Snake.segmentSize s) (Snake.growNextMove s).
Proof.
  intros Hacc. rewrite <- rejects_test in Hacc.
  apply not_true_is_false in Hacc.
  unfold Snake.SetDirection. rewrite Hacc.
  destruct s as [b cur last seg grow]. simpl.
  destruct (Direction_eqb cur STOPPED && (length b =? 1)%nat); simpl.
  - now rewrite orb_true_r.
  - rewrite orb_false_r. now destruct (Direction_eqb last STOPPED).
Qed.

Lemma stopped_never_rejects (requested : Direction) (s : Snake.t) :
  Snake.lastMovedDirection s = STOPPED -> ~ rejects requested s.
Proof. intros Hlast (_ & _ & Hne). contradiction. Qed.

(** C3.  [SetDirection requested] leaves the snake as it is, and so
    [currentDirection] unchanged, exactly in the rejecting case: [requested]
    is the opposite of [lastMovedDirection], the body has more than one
    segment and [lastMovedDirection] is not [STOPPED].  In every other case
    [currentDirection] becomes [requested]; when [lastMovedDirection] was
    [STOPPED] the request is accepted whatever it is and
    [lastMovedDirection] becomes [requested] as well.  Body, segment size
    and growth flag are never touched. *)
Theorem SetDirection_arbitration (requested : Direction) (s : Snake.t) :
  (rejects requested s -> Snake.SetDirection requested s = s)
  /\ (~ rejects requested s ->
      Snake.currentDirection (Snake.SetDirection requested s) = requested)
  /\ (Snake.currentDirection (Snake.SetDirection requested s) <> requested ->
      rejects requested s)
  /\ (Snake.lastMovedDirection s = STOPPED ->
      Snake.currentDirection (Snake.SetDirection requested s) = requested
      /\ Snake.lastMovedDirection (Snake.SetDirection requested s) = requested)
  /\ Snake.body (Snake.SetDirection requested s) = Snake.body s
  /\ Snake.segmentSize (Snake.SetDirection requested s) = Snake.segmentSize s
  /\ Snake.growNextMove (Snake.SetDirection requested s) = Snake.growNextMove s.
Proof.
  assert (Hdec : rejects requested s \/ ~ rejects requested s).
  { destruct (Snake.is_reversal requested (Snake.lastMovedDirection s)
              && ((1 <? length (Snake.body s))%nat
                  && negb (Direction_eqb (Snake.lastMovedDirection s) STOPPED)))
      eqn:E.
    - left. now apply rejects_test.
    - right. rewrite <- rejects_test. congruence. }
  split; [apply SetDirection_rejected|].
  split; [intros Hacc; now rewrite SetDirection_accepted|].
  split.
  { intros Hne. destruct Hdec as [Hrej|Hacc]; [assumption|].
    rewrite SetDirection_accepted in Hne by assumption. simpl in Hne.
    contradiction. }
  split.
  { intros Hlast. pose proof (stopped_never_rejects requested s Hlast) as Hacc.
    rewrite SetDirection_accepted by assumption. simpl.
    rewrite Hlast. simpl. split; reflexivity. }
  destruct Hdec as [Hrej|Hacc].
  - rewrite SetDirection_rejected by assumption. repeat split.
  - rewrite SetDirection_accepted by assumption. repeat split.
Qed.

(** The rejecting case and the first-input case on the snake built at
    (400,300): after [SetDirection LEFT] and a move, [RIGHT] is refused. *)
Lemma SetDirection_arbitration_witness :
  Snake.SetDirection RIGHT
    (Snake.mk [mkPosition 340 300; mkPosition 360 300; mkPosition 380 300]
              LEFT LEFT 20 false)
  = Snake.mk [mkPosition 340 300; mkPosition 360 300; mkPosition 380 300]
             LEFT LEFT 20 false
  /\ Snake.currentDirection (Snake.SetDirection UP (Snake.Snake 400 300 20)) = UP
  /\ (Snake.currentDirection (Snake.SetDirection LEFT (Snake.Snake 400 300 20)) = LEFT
      /\ Snake.lastMovedDirection (Snake.SetDirection LEFT (Snake.Snake 400 300 20)) = LEFT).
Proof.
  split; [|split].
  - destruct (SetDirection_arbitration RIGHT
                (Snake.mk [mkPosition 340 300; mkPosition 360 300; mkPosition 380 300]
                          LEFT LEFT 20 false)) as (Hrej & _).
    apply Hrej. unfold rejects, opposite; simpl.
    repeat split; [tauto | lia | discriminate].
  - destruct (SetDirection_arbitration UP (Snake.Snake 400 300 20))
      as (_ & Hacc & _).
    apply Hacc. unfold rejects; simpl. intros (_ & _ & Hne). now apply Hne.
  - destruct (SetDirection_arbitration LEFT (Snake.Snake 400 300 20))
      as (_ & _ & _ & Hfirst & _).
    apply Hfirst. reflexivity.
Defined.

(* ================================================================= *)
(** ** Snake: head position *)

(** C8, as the specification words it, fails: the result for an empty body
    is the ordinary position (-1,-1), which is also the head of the snake
    the constructor builds at (1,-1) with segment size 1. *)
Lemma GetHeadPosition_empty_not_distinguished : ~ empty_body_is_distinguished.
Proof.
  intros Hclaim.
  apply (Hclaim (Snake.mk [] STOPPED STOPPED 1 false) (Snake.Snake 1 (-1) 1)).
  - reflexivity.
  - vm_compute. discriminate.
  - reflexivity.
Qed.

(** C8, amended.  On an empty body [GetHeadPosition] returns the sentinel
    position (-1,-1), a plain [Position] like any other result; on a body
    with a segment it returns the front of the body. *)
Theorem GetHeadPosition_sentinel (s : Snake.t) :
  (Snake.body s = [] -> Snake.GetHeadPosition s = mkPosition (-1) (-1))
  /\ (forall front rest, Snake.body s = front :: rest ->
      Snake.GetHeadPosition s = front).
Proof.
  unfold Snake.GetHeadPosition. split.
  - intros ->. reflexivity.
  - intros front rest ->. reflexivity.
Qed.

Lemma GetHeadPosition_sentinel_witness :
  Snake.GetHeadPosition (Snake.mk [] STOPPED STOPPED 20 false) = mkPosition (-1) (-1)
  /\ Snake.GetHeadPosition (Snake.Snake 400 300 20) = mkPosition 360 300.
Proof.
  split.
  - destruct (GetHeadPosition_sentinel (Snake.mk [] STOPPED STOPPED 20 false))
      as (Hempty & _).
    apply Hempty. reflexivity.
  - destruct (GetHeadPosition_sentinel (Snake.Snake 400 300 20))
      as (_ & Hfront).
    apply Hfront with (rest := [mkPosition 380 300; mkPosition 400 300]).
    reflexivity.
Defined.

(* ================================================================= *)
(** ** Snake: self collision *)

(** The loop started at index [i] with [todo] iterations to go finds a
    collision exactly when one of the indices [i .. i + todo - 1] holds a
    segment with the coordinates of the head. *)
Lemma collision_loop_true (b : list Position) (head : Position) :
  forall (todo i : nat),
    Snake.collision_loop b head i todo = true <->
    exists (j : nat) (seg : Position),
      (i <= j < i + todo)%nat /\ nth_error b j = Some seg /\ seg = head.
Proof.
  induction todo as [|todo IH]; intros i; simpl.
  - split; [discriminate|]. intros (j & seg & Hj & _). lia.
  - destruct (nth_error b i) as [seg|] eqn:Hi.
    + destruct ((x seg =? x head) && (y seg =? y head)) eqn:Heq.
      * split; [intros _|reflexivity].
        exists i, seg. apply coords_eqb_eq in Heq. repeat split; [lia|lia|assumption|assumption].
      * rewrite IH. split.
        -- intros (j & seg' & Hj & Hnth & Hsame).
           exists j, seg'. repeat split; try assumption; lia.
        -- intros (j & seg' & Hj & Hnth & Hsame).
           assert (j <> i).
           { intros ->. rewrite Hi in Hnth. injection Hnth as ->.
             apply coords_eqb_eq in Hsame. congruence. }
           exists j, seg'. repeat split; try assumption; lia.
    + split; [discriminate|]. intros (j & seg & Hj & Hnth & _).
      apply nth_error_None in Hi.
      assert (Hnone : nth_error b j = None) by (apply nth_error_None; lia).
      congruence.
Qed.

(** C7.  [CheckSelfCollision] is [false] on a body of fewer than two
    segments; on a longer body it is [true] exactly when some segment at an
    index >= 1 is at the position of the head, the front of the body. *)
Theorem CheckSelfCollision_spec (s : Snake.t) :
  ((length (Snake.body s) < 2)%nat -> Snake.CheckSelfCollision s = false)
  /\ ((2 <= length (Snake.body s))%nat ->
      (Snake.CheckSelfCollision s = true <->
       exists (i : nat) (seg : Position),
         (1 <= i)%nat /\ nth_error (Snake.body s) i = Some seg
         /\ seg = Snake.GetHeadPosition s)).
Proof.
  unfold Snake.CheckSelfCollision, Snake.GetHeadPosition. split.
  - intros Hshort. apply Nat.ltb_lt in Hshort. now rewrite Hshort.
  - intros Hlong.
    assert (Hlt : (length (Snake.body s) <? 2)%nat = false)
      by (apply Nat.ltb_ge; assumption).
    rewrite Hlt. destruct (Snake.body s) as [|head rest] eqn:Hb.
    + simpl in Hlong. lia.
    + rewrite collision_loop_true. split.
      * intros (j & seg & Hj & Hnth & Hsame). exists j, seg.
        repeat split; try assumption; lia.
      * intros (j & seg & Hj & Hnth & Hsame). exists j, seg.
        assert (j < length (head :: rest))%nat
          by (apply nth_error_Some; congruence).
        repeat split; try assumption; lia.
Qed.

(** A body that bites itself and one that does not. *)
Lemma CheckSelfCollision_spec_witness :
  Snake.CheckSelfCollision (Snake.mk [mkPosition 0 0] UP UP 20 false) = false
  /\ Snake.CheckSelfCollision
       (Snake.mk [mkPosition 380 300; mkPosition 360 300; mkPosition 380 300]
                 RIGHT RIGHT 20 false) = true.
Proof.
  split.
  - destruct (CheckSelfCollision_spec (Snake.mk [mkPosition 0 0] UP UP 20 false))
      as (Hshort & _).
    apply Hshort. simpl. lia.
  - destruct (CheckSelfCollision_spec
                (Snake.mk [mkPosition 380 300; mkPosition 360 300; mkPosition 380 300]
                          RIGHT RIGHT 20 false)) as (_ & Hlong).
    apply Hlong; [simpl; lia|].
    exists 2%nat, (mkPosition 380 300). repeat split. lia.
Defined.

(* ================================================================= *)
(** ** Snake: movement *)

Lemma length_pop_back_push_front (p : Position) (b : list Position) :
  length (pop_back (push_front p b)) = length b.
Proof.
  unfold pop_back, push_front. revert p.
  induction b as [|q b IH]; intros p; [reflexivity|].
  change (removelast (p :: q :: b)) with (p :: removelast (q :: b)).
  cbn [length]. f_equal. apply IH.
Qed.

Lemma pop_back_push_front (p front : Position) (rest : list Position) :
  pop_back (push_front p (front :: rest)) = p :: pop_back (front :: rest).
Proof. reflexivity. Qed.

(** The state after a move that is not stopped. *)
Lemma Move_moving (s : Snake.t) (front : Position) (rest : list Position) :
  Snake.currentDirection s <> STOPPED ->
  Snake.body s = front :: rest ->
  Snake.Move s =
  Done (Snake.mk
          (Snake.advance (Snake.currentDirection s) (Snake.segmentSize s) front
             :: (if Snake.growNextMove s then Snake.body s
                 else pop_back (Snake.body s)))
          (Snake.currentDirection s) (Snake.currentDirection s)
          (Snake.segmentSize s) false).
Proof.
  intros Hdir Hbody. apply Direction_eqb_neq in Hdir.
  unfold Snake.Move. rewrite Hdir, Hbody.
  destruct s as [b cur last seg grow]. simpl in *. subst b.
  destruct grow; reflexivity.
Qed.

Lemma Move_stopped (s : Snake.t) :
  Snake.currentDirection s = STOPPED -> Snake.Move s = Done s.
Proof. intros Hdir. unfold Snake.Move. now rewrite Hdir. Qed.

(** Without overflow the machine offset is the exact one. *)
Lemma advance_exact (d : Direction) (seg : Z) (p : Position) :
  representable (displaced d seg p) ->
  Snake.advance d seg p = displaced d seg p.
Proof.
  intros [Hx Hy]. destruct p as [px py].
  destruct d; simpl in *; unfold Int.add, Int.sub;
    rewrite ?Int_wrap_id by assumption; reflexivity.
Qed.

Lemma displaced_displaced (d : Direction) (a b : Z) (p : Position) :
  displaced d a (displaced d b p) = displaced d (b + a) p.
Proof. destruct d; simpl; try reflexivity; f_equal; lia. Qed.

Lemma Move_n_snoc (n : nat) :
  forall s, Move_n (S n) s = (sn <- Move_n n s ;; Snake.Move sn).
Proof.
  induction n as [|n IH]; intros s.
  - simpl. destruct (Snake.Move s); reflexivity.
  - change (Move_n (S (S n)) s) with (s1 <- Snake.Move s ;; Move_n (S n) s1).
    change (Move_n (S n) s) with (s1 <- Snake.Move s ;; Move_n n s1).
    destruct (Snake.Move s) as [s1| |]; simpl; [apply IH|reflexivity|reflexivity].
Qed.

(** [n] moves in a fixed direction, without growth and without overflow:
    the head has travelled [n] segment sizes and the length is the same. *)
Lemma Move_n_fixed_direction (n : nat) :
  forall (s : Snake.t) (front : Position) (rest : list Position),
    Snake.currentDirection s <> STOPPED ->
    Snake.body s = front :: rest ->
    Snake.growNextMove s = false ->
    (forall k, (k <= n)%nat ->
       representable (displaced (Snake.currentDirection s)
                                (Z.of_nat k * Snake.segmentSize s) front)) ->
    exists (s' : Snake.t) (rest' : list Position),
      Move_n n s = Done s'
      /\ Snake.body s' =
           displaced (Snake.currentDirection s)
                     (Z.of_nat n * Snake.segmentSize s) front :: rest'
      /\ length (Snake.body s') = length (Snake.body s)
      /\ Snake.currentDirection s' = Snake.currentDirection s
      /\ Snake.segmentSize s' = Snake.segmentSize s
      /\ Snake.growNextMove s' = false.
Proof.
  induction n as [|n IH]; intros s front rest Hdir Hbody Hgrow Hfit.
  - exists s, rest. simpl. rewrite Hbody.
    destruct (Snake.currentDirection s), front; simpl;
      repeat split; try assumption; try (f_equal; f_equal; lia); congruence.
  - simpl Move_n. rewrite (Move_moving s front rest Hdir Hbody).
    rewrite Hgrow, Hbody. simpl bind.
    rewrite advance_exact.
    2:{ specialize (Hfit 1%nat ltac:(lia)).
        now rewrite Z.mul_1_l in Hfit. }
    set (d := Snake.currentDirection s) in *.
    set (seg := Snake.segmentSize s) in *.
    destruct (IH (Snake.mk (displaced d seg front :: pop_back (front :: rest))
                           d d seg false)
                 (displaced d seg front) (pop_back (front :: rest)))
      as (s' & rest' & Hrun & Hb' & Hlen & Hd' & Hseg' & Hg');
      try reflexivity; try assumption.
    { simpl. intros k Hk. rewrite displaced_displaced.
      specialize (Hfit (S k) ltac:(lia)).
      replace (seg + Z.of_nat k * seg) with (Z.of_nat (S k) * seg) by lia.
      exact Hfit. }
    cbn [Snake.body Snake.currentDirection Snake.segmentSize length]
      in Hb', Hlen, Hd', Hseg'.
    exists s', rest'. split; [exact Hrun|]. split.
    { rewrite Hb', displaced_displaced. f_equal. f_equal. lia. }
    split.
    { rewrite Hlen. cbn [length]. f_equal.
      exact (length_pop_back_push_front front rest). }
    repeat split; assumption.
Qed.

(** C4.  [Move] does nothing when [currentDirection] is [STOPPED].
    Otherwise, on a body with front [front], it returns with: the old front
    offset by one [segmentSize] in [currentDirection] as the new front (the
    exact offset whenever that is an [int] position); behind it the whole
    old body when [growNextMove] was set, so the length grows by one, and
    the old body without its back element when it was not, so the length
    is unchanged; [growNextMove] cleared; [lastMovedDirection] equal to
    [currentDirection].  Consequently, along any run of moves in one fixed
    cardinal direction with no growth pending, every move returns, keeps
    the body length, and puts the head exactly one [segmentSize] further
    along that direction than the head before it. *)
Theorem Move_spec (s : Snake.t) :
  (Snake.currentDirection s = STOPPED -> Snake.Move s = Done s)
  /\ (forall (front : Position) (rest : list Position),
        Snake.currentDirection s <> STOPPED ->
        Snake.body s = front :: rest ->
        exists s' : Snake.t,
          Snake.Move s = Done s'
          /\ Snake.body s' =
               Snake.advance (Snake.currentDirection s) (Snake.segmentSize s) front
                 :: (if Snake.growNextMove s then Snake.body s
                     else pop_back (Snake.body s))
          /\ (representable
                (displaced (Snake.currentDirection s) (Snake.segmentSize s) front) ->
              Snake.GetHeadPosition s' =
                displaced (Snake.currentDirection s) (Snake.segmentSize s) front)
          /\ length (Snake.body s') =
               (if Snake.growNextMove s then S (length (Snake.body s))
                else length (Snake.body s))
          /\ Snake.growNextMove s' = false
          /\ Snake.lastMovedDirection s' = Snake.currentDirection s
          /\ Snake.currentDirection s' = Snake.currentDirection s
          /\ Snake.segmentSize s' = Snake.segmentSize s)
  /\ (forall (n : nat) (front : Position) (rest : list Position),
        Snake.currentDirection s <> STOPPED ->
        Snake.body s = front :: rest ->
        Snake.growNextMove s = false ->
        (forall k, (k <= n)%nat ->
           representable (displaced (Snake.currentDirection s)
                                    (Z.of_nat k * Snake.segmentSize s) front)) ->
        forall k, (k < n)%nat ->
          exists sk sk' : Snake.t,
            Move_n k s = Done sk
            /\ Snake.Move sk = Done sk'
            /\ Move_n (S k) s = Done sk'
            /\ length (Snake.body sk) = length (Snake.body s)
            /\ length (Snake.body sk') = length (Snake.body s)
            /\ Snake.GetHeadPosition sk' =
                 displaced (Snake.currentDirection s) (Snake.segmentSize s)
                           (Snake.GetHeadPosition sk)).
Proof.
  split; [apply Move_stopped|]. split.
  - intros front rest Hdir Hbody.
    eexists. split; [apply (Move_moving s front rest Hdir Hbody)|].
    cbn [Snake.body Snake.growNextMove Snake.lastMovedDirection
         Snake.currentDirection Snake.segmentSize].
    split; [reflexivity|]. split.
    { intros Hfit. unfold Snake.GetHeadPosition. cbn [Snake.body].
      now apply advance_exact. }
    split.
    { cbn [length]. destruct (Snake.growNextMove s); [reflexivity|].
      rewrite Hbody.
      pose proof (length_pop_back_push_front front rest) as Hlen.
      unfold push_front in Hlen. now rewrite Hlen. }
    repeat split.
  - intros n front rest Hdir Hbody Hgrow Hfit k Hk.
    destruct (Move_n_fixed_direction k s front rest Hdir Hbody Hgrow)
      as (sk & restk & Hrunk & Hbk & Hlenk & Hdk & Hsegk & Hgk).
    { intros j Hj. apply Hfit. lia. }
    destruct (Move_n_fixed_direction (S k) s front rest Hdir Hbody Hgrow)
      as (sk' & restk' & Hrunk' & Hbk' & Hlenk' & _).
    { intros j Hj. apply Hfit. lia. }
    exists sk, sk'.
    assert (Hstep : Snake.Move sk = Done sk').
    { rewrite Move_n_snoc, Hrunk in Hrunk'. exact Hrunk'. }
    repeat split; try assumption.
    unfold Snake.GetHeadPosition. rewrite Hbk, Hbk', displaced_displaced.
    f_equal. lia.
Qed.

(** The snake built at (400,300), turned LEFT: one move, one growing move,
    and three moves in a row. *)
Lemma Move_spec_witness :
  Snake.Move (Snake.Snake 400 300 20) = Done (Snake.Snake 400 300 20)
  /\ (exists s' : Snake.t,
        Snake.Move (Snake.Grow (Snake.SetDirection LEFT (Snake.Snake 400 300 20)))
          = Done s'
        /\ Snake.GetHeadPosition s' = mkPosition 340 300
        /\ length (Snake.body s') = 4%nat)
  /\ (exists sk sk' : Snake.t,
        Move_n 2 (Snake.SetDirection LEFT (Snake.Snake 400 300 20)) = Done sk
        /\ Move_n 3 (Snake.SetDirection LEFT (Snake.Snake 400 300 20)) = Done sk'
        /\ length (Snake.body sk') = 3%nat
        /\ Snake.GetHeadPosition sk' = displaced LEFT 20 (Snake.GetHeadPosition sk)).
Proof.
  split; [|split].
  - destruct (Move_spec (Snake.Snake 400 300 20)) as (Hstop & _).
    apply Hstop. reflexivity.
  - destruct (Move_spec (Snake.Grow (Snake.SetDirection LEFT (Snake.Snake 400 300 20))))
      as (_ & Hmove & _).
    destruct (Hmove (mkPosition 360 300) [mkPosition 380 300; mkPosition 400 300])
      as (s' & Hrun & _ & Hhead & Hlen & _).
    + simpl. discriminate.
    + reflexivity.
    + exists s'. split; [exact Hrun|]. split.
      * apply Hhead. unfold representable, Int.in_range, Int.half_modulus.
        simpl. lia.
      * exact Hlen.
  - destruct (Move_spec (Snake.SetDirection LEFT (Snake.Snake 400 300 20)))
      as (_ & _ & Hrun).
    destruct (Hrun 3%nat (mkPosition 360 300)
                   [mkPosition 380 300; mkPosition 400 300])
      with (k := 2%nat)
      as (sk & sk' & Hk & _ & Hk' & _ & Hlen & Hhead).
    + simpl. discriminate.
    + reflexivity.
    + reflexivity.
    + intros k Hk.
      change (representable (displaced LEFT (Z.of_nat k * 20) (mkPosition 360 300))).
      unfold representable, displaced, Int.in_range, Int.half_modulus.
      cbn [x y]. lia.
    + lia.
    + exists sk, sk'. repeat split; assumption.
Defined.

(* ================================================================= *)
(** ** Snake: the body never shrinks *)

Lemma SetDirection_body (d : Direction) (s : Snake.t) :
  Snake.body (Snake.SetDirection d s) = Snake.body s.
Proof.
  unfold Snake.SetDirection.
  repeat match goal with
         | |- context [if ?b then _ else _] => destruct b
         end; reflexivity.
Qed.

(** One call on a snake with a non-empty body: it returns, and the length
    stays or, for a [Move], stays or grows by one. *)
Lemma call_length (c : SnakeCall) (s : Snake.t) :
  Snake.body s <> [] ->
  exists s' : Snake.t,
    call c s = Done s'
    /\ (length (Snake.body s) <= length (Snake.body s')
        <= S (length (Snake.body s)))%nat
    /\ match c with
       | CallMove => True
       | _ => length (Snake.body s') = length (Snake.body s)
       end.
Proof.
  intros Hne. destruct c as [d| |]; simpl.
  - eexists. split; [reflexivity|]. rewrite SetDirection_body. lia.
  - eexists. split; [reflexivity|]. simpl. lia.
  - destruct (Direction_eqb (Snake.currentDirection s) STOPPED) eqn:Hdir.
    + exists s. apply Direction_eqb_eq in Hdir.
      rewrite Move_stopped by assumption. repeat split; lia.
    + apply Direction_eqb_neq in Hdir.
      destruct (Snake.body s) as [|front rest] eqn:Hbody; [contradiction|].
      eexists. split; [apply (Move_moving s front rest); assumption|].
      cbn [Snake.body length].
      pose proof (length_pop_back_push_front front rest) as Hlen.
      unfold push_front in Hlen.
      destruct (Snake.growNextMove s); rewrite ?Hbody, ?Hlen; simpl; lia.
Qed.

Lemma calls_app (cs : list SnakeCall) (c : SnakeCall) :
  forall s, calls (cs ++ [c]) s = (s' <- calls cs s ;; call c s').
Proof.
  induction cs as [|c0 cs IH]; intros s; simpl.
  - destruct (call c s); reflexivity.
  - destruct (call c0 s) as [s1| |]; simpl; [apply IH|reflexivity|reflexivity].
Qed.

Lemma calls_length (cs : list SnakeCall) :
  forall s, Snake.body s <> [] ->
    exists s' : Snake.t,
      calls cs s = Done s'
      /\ (length (Snake.body s) <= length (Snake.body s'))%nat.
Proof.
  induction cs as [|c cs IH]; intros s Hne; simpl.
  - exists s. split; [reflexivity|lia].
  - destruct (call_length c s Hne) as (s1 & Hc & Hlen & _).
    rewrite Hc. simpl.
    destruct (IH s1) as (s' & Hrun & Hlen').
    + intros Hempty. rewrite Hempty in Hlen.
      destruct (Snake.body s); [contradiction|simpl in Hlen; lia].
    + exists s'. split; [exact Hrun|lia].
Qed.

(** C10.  After any finite sequence of [SetDirection], [Grow] and [Move]
    calls on a freshly constructed snake, every call has returned, the body
    has at least 3 segments (so it is not empty), and whatever call comes
    next returns with a body at least as long: a [Move] keeps the length or
    adds exactly one, [SetDirection] and [Grow] keep it. *)
Theorem body_length_never_decreases
        (startX startY segSize : Z) (cs : list SnakeCall) :
  exists s : Snake.t,
    calls cs (Snake.Snake startX startY segSize) = Done s
    /\ (3 <= length (Snake.body s))%nat
    /\ Snake.body s <> []
    /\ forall c : SnakeCall,
        exists s' : Snake.t,
          call c s = Done s'
          /\ calls (cs ++ [c]) (Snake.Snake startX startY segSize) = Done s'
          /\ (length (Snake.body s) <= length (Snake.body s')
              <= S (length (Snake.body s)))%nat
          /\ match c with
             | CallMove => True
             | _ => length (Snake.body s') = length (Snake.body s)
             end.
Proof.
  destruct (calls_length cs (Snake.Snake startX startY segSize))
    as (s & Hrun & Hlen); [discriminate|].
  change (length (Snake.body (Snake.Snake startX startY segSize))) with 3%nat
    in Hlen.
  assert (Hne : Snake.body s <> []).
  { intros Hempty. rewrite Hempty in Hlen. simpl in Hlen. lia. }
  exists s. repeat split; try assumption.
  intros c. destruct (call_length c s Hne) as (s' & Hc & Hbounds & Hkind).
  exists s'. split; [exact Hc|]. split; [|split; assumption].
  rewrite calls_app, Hrun. exact Hc.
Qed.

(* ================================================================= *)
(** ** Food: generation of a position *)

Lemma lcg_in_range (a b r : Z) : a <= b -> a <= a + r mod (b - a + 1) <= b.
Proof.
  intros Hab. pose proof (Z.mod_pos_bound r (b - a + 1)). lia.
Qed.

#[export] Instance lcg_laws : RandomSourceLaws Z.
Proof. constructor. intros a b r Hab. apply lcg_in_range, Hab. Qed.

Lemma find_coords_None (p : Position) (snakeBody : list Position) :
  find (fun segment => (x segment =? x p) && (y segment =? y p)) snakeBody = None
  <-> ~ In p snakeBody.
Proof.
  split.
  - intros Hfind Hin.
    pose proof (find_none _ _ Hfind p Hin) as Hp. simpl in Hp.
    now rewrite !Z.eqb_refl in Hp.
  - intros Hnotin.
    destruct (find _ snakeBody) as [q|] eqn:Hfind; [|reflexivity].
    apply find_some in Hfind. destruct Hfind as [Hin Heq].
    apply coords_eqb_eq in Heq. subst q. contradiction.
Qed.

Lemma quot_nonneg_bounds (a b : Z) :
  0 < b -> 1 <= Z.quot a b -> 0 <= a /\ b * Z.quot a b <= a.
Proof.
  intros Hb Hq.
  assert (Ha : 0 <= a).
  { destruct (Z_lt_le_dec a 0) as [Hneg|]; [|assumption].
    replace a with (- (- a)) in Hq by lia.
    rewrite Z.quot_opp_l in Hq by lia.
    pose proof (Z.quot_pos (- a) b). lia. }
  split; [exact Ha|].
  rewrite Z.quot_div_nonneg by lia. apply Z.mul_div_le. exact Hb.
Qed.

Section FoodFacts.
Context {R : Type} `{RandomSourceLaws R}.

(** What a returning run of the loop leaves in the food. *)
Lemma GenerateNewPosition_loop_Done (snakeBody : list Position) (hiX hiY : Z) :
  0 <= hiX -> 0 <= hiY ->
  forall (fuel : nat) (f f' : Food.t R),
    Food.GenerateNewPosition_loop fuel snakeBody hiX hiY f = Done f' ->
    (exists cx cy : Z,
        0 <= cx <= hiX /\ 0 <= cy <= hiY
        /\ Food.pos f' = mkPosition (Int.mul cx (Food.segmentSize f))
                                    (Int.mul cy (Food.segmentSize f)))
    /\ ~ In (Food.pos f') snakeBody
    /\ Food.boardWidth f' = Food.boardWidth f
    /\ Food.boardHeight f' = Food.boardHeight f
    /\ Food.segmentSize f' = Food.segmentSize f.
Proof.
  intros HhiX HhiY. induction fuel as [|fuel IH]; intros f f' Hrun.
  - discriminate.
  - cbn [Food.GenerateNewPosition_loop] in Hrun.
    pose proof (uniform_int_in_range 0 hiX (Food.rng f) HhiX) as Hcx.
    destruct (uniform_int 0 hiX (Food.rng f)) as [cx r1].
    cbn [Food.set_rng Food.set_pos_x Food.rng Food.segmentSize
         Food.boardWidth Food.boardHeight Food.pos] in Hrun.
    pose proof (uniform_int_in_range 0 hiY r1 HhiY) as Hcy.
    destruct (uniform_int 0 hiY r1) as [cy r2].
    cbn [Food.set_rng Food.set_pos_y Food.set_pos_x Food.rng Food.segmentSize
         Food.boardWidth Food.boardHeight Food.pos x y fst] in Hrun, Hcx, Hcy.
    match type of Hrun with
    | match find ?p ?b with _ => _ end = _ =>
        destruct (find p b) eqn:Hfind
    end.
    + apply IH in Hrun.
      cbn [Food.segmentSize Food.boardWidth Food.boardHeight] in Hrun.
      exact Hrun.
    + injection Hrun as <-.
      cbn [Food.pos Food.segmentSize Food.boardWidth Food.boardHeight].
      split; [exists cx, cy; repeat split; lia|].
      split; [|repeat split].
      apply (find_coords_None
               (mkPosition (Int.mul cx (Food.segmentSize f))
                           (Int.mul cy (Food.segmentSize f)))).
      exact Hfind.
Qed.

End FoodFacts.

Section FoodTheorems.
Context {R : Type} `{RandomSourceLaws R}.

(** A run that returns with some fuel returns the same food with more. *)
Lemma GenerateNewPosition_loop_more_fuel (snakeBody : list Position)
      (hiX hiY : Z) (extra : nat) :
  forall (fuel : nat) (f f' : Food.t R),
    Food.GenerateNewPosition_loop fuel snakeBody hiX hiY f = Done f' ->
    Food.GenerateNewPosition_loop (fuel + extra) snakeBody hiX hiY f = Done f'.
Proof.
  induction fuel as [|fuel IH]; intros f f' Hrun; [discriminate|].
  cbn [Food.GenerateNewPosition_loop Nat.add] in *.
  destruct (uniform_int 0 hiX (Food.rng f)) as [cx r1].
  destruct (uniform_int 0 hiY _) as [cy r2].
  match type of Hrun with
  | match find ?p ?b with _ => _ end = _ => destruct (find p b)
  end; [apply IH|]; exact Hrun.
Qed.

(** On a board of at least one cell in each direction, with a positive
    segment size, a returning call leaves the food on a grid cell that is
    not a segment of the body. *)
Lemma GenerateNewPosition_Done (fuel : nat) (snakeBody : list Position)
      (f f' : Food.t R) :
  0 < Food.segmentSize f ->
  Int.in_range (Food.boardWidth f) ->
  Int.in_range (Food.boardHeight f) ->
  1 <= Z.quot (Food.boardWidth f) (Food.segmentSize f) ->
  1 <= Z.quot (Food.boardHeight f) (Food.segmentSize f) ->
  Food.GenerateNewPosition fuel snakeBody f = Done f' ->
  grid_cell f (Food.pos f')
  /\ ~ In (Food.pos f') snakeBody
  /\ Food.boardWidth f' = Food.boardWidth f
  /\ Food.boardHeight f' = Food.boardHeight f
  /\ Food.segmentSize f' = Food.segmentSize f.
Proof.
  intros Hseg HW HH HqW HqH Hrun.
  destruct (quot_nonneg_bounds _ _ Hseg HqW) as [HW0 HWq].
  destruct (quot_nonneg_bounds _ _ Hseg HqH) as [HH0 HHq].
  unfold Int.in_range, Int.half_modulus in HW, HH.
  set (seg := Food.segmentSize f) in *.
  set (qW := Z.quot (Food.boardWidth f) seg) in *.
  set (qH := Z.quot (Food.boardHeight f) seg) in *.
  assert (HhiX : Int.sub (Int.div (Food.boardWidth f) seg) 1 = qW - 1).
  { unfold Int.sub, Int.div. fold qW.
    rewrite (Int_wrap_id qW), Int_wrap_id;
      unfold Int.in_range, Int.half_modulus; nia. }
  assert (HhiY : Int.sub (Int.div (Food.boardHeight f) seg) 1 = qH - 1).
  { unfold Int.sub, Int.div. fold qH.
    rewrite (Int_wrap_id qH), Int_wrap_id;
      unfold Int.in_range, Int.half_modulus; nia. }
  unfold Food.GenerateNewPosition in Hrun. fold seg in Hrun.
  rewrite HhiX, HhiY in Hrun.
  replace (seg =? 0) with false in Hrun by (symmetry; apply Z.eqb_neq; lia).
  replace (qW - 1 <? 0) with false in Hrun by (symmetry; apply Z.ltb_ge; lia).
  replace (qH - 1 <? 0) with false in Hrun by (symmetry; apply Z.ltb_ge; lia).
  cbn [orb] in Hrun.
  apply GenerateNewPosition_loop_Done in Hrun; [|lia|lia].
  fold seg in Hrun.
  destruct Hrun as ((cx & cy & Hcx & Hcy & Hpos) & Hfree & Hfields).
  assert (Hmx : Int.mul cx seg = cx * seg).
  { apply Int_wrap_id. unfold Int.in_range, Int.half_modulus. nia. }
  assert (Hmy : Int.mul cy seg = cy * seg).
  { apply Int_wrap_id. unfold Int.in_range, Int.half_modulus. nia. }
  rewrite Hmx, Hmy in Hpos.
  split; [|split; assumption].
  exists cx, cy. fold seg qW qH. repeat split; try lia. exact Hpos.
Qed.

(** C6.  Let the food have a positive segment size and [int] board
    dimensions, and let the snake body leave at least one grid cell free.
    When [GenerateNewPosition] returns, both coordinates of the stored
    position are non-negative multiples of [segmentSize], the position
    lies on the board grid ([x] in [0, boardWidth - segmentSize], [y] in
    [0, boardHeight - segmentSize]) and it differs from every segment of
    the body that was passed in. *)
Theorem GenerateNewPosition_spec (fuel : nat) (snakeBody : list Position)
        (f f' : Food.t R) :
  0 < Food.segmentSize f ->
  Int.in_range (Food.boardWidth f) ->
  Int.in_range (Food.boardHeight f) ->
  leaves_free_cell f snakeBody ->
  Food.GenerateNewPosition fuel snakeBody f = Done f' ->
  (exists kx : Z, 0 <= kx /\ x (Food.pos f') = kx * Food.segmentSize f)
  /\ (exists ky : Z, 0 <= ky /\ y (Food.pos f') = ky * Food.segmentSize f)
  /\ 0 <= x (Food.pos f') <= Food.boardWidth f - Food.segmentSize f
  /\ 0 <= y (Food.pos f') <= Food.boardHeight f - Food.segmentSize f
  /\ (forall segment : Position,
        In segment snakeBody -> segment <> Food.pos f').
Proof.
  intros Hseg HW HH (p & (cx0 & cy0 & Hcx0 & Hcy0 & _) & _) Hrun.
  assert (HqW : 1 <= Z.quot (Food.boardWidth f) (Food.segmentSize f)) by lia.
  assert (HqH : 1 <= Z.quot (Food.boardHeight f) (Food.segmentSize f)) by lia.
  destruct (GenerateNewPosition_Done fuel snakeBody f f' Hseg HW HH HqW HqH Hrun)
    as ((cx & cy & Hcx & Hcy & Hpos) & Hfree & _).
  destruct (quot_nonneg_bounds _ _ Hseg HqW) as [_ HWq].
  destruct (quot_nonneg_bounds _ _ Hseg HqH) as [_ HHq].
  rewrite Hpos. cbn [x y].
  split; [exists cx; split; [lia|reflexivity]|].
  split; [exists cy; split; [lia|reflexivity]|].
  split; [nia|]. split; [nia|].
  intros segment Hin Heq. apply Hfree. rewrite Hpos, <- Heq. exact Hin.
Qed.

(** The call does return: as soon as the two draws of an iteration name a
    cell off the body, the loop stops there.  Stated for the first
    iteration; [GenerateNewPosition_loop_more_fuel] covers spare fuel. *)
Lemma GenerateNewPosition_returns (fuel : nat) (snakeBody : list Position)
      (f : Food.t R) (hiX hiY : Z) :
  Food.segmentSize f <> 0 ->
  hiX = Int.sub (Int.div (Food.boardWidth f) (Food.segmentSize f)) 1 ->
  hiY = Int.sub (Int.div (Food.boardHeight f) (Food.segmentSize f)) 1 ->
  0 <= hiX -> 0 <= hiY ->
  ~ In (mkPosition
          (Int.mul (fst (uniform_int 0 hiX (Food.rng f))) (Food.segmentSize f))
          (Int.mul (fst (uniform_int 0 hiY
                           (snd (uniform_int 0 hiX (Food.rng f)))))
                   (Food.segmentSize f)))
       snakeBody ->
  Food.GenerateNewPosition (S fuel) snakeBody f =
  Done (Food.mk
          (mkPosition
             (Int.mul (fst (uniform_int 0 hiX (Food.rng f))) (Food.segmentSize f))
             (Int.mul (fst (uniform_int 0 hiY
                              (snd (uniform_int 0 hiX (Food.rng f)))))
                      (Food.segmentSize f)))
          (Food.boardWidth f) (Food.boardHeight f) (Food.segmentSize f)
          (snd (uniform_int 0 hiY (snd (uniform_int 0 hiX (Food.rng f)))))).
Proof.
  intros Hseg -> -> HhiX HhiY Hfree.
  unfold Food.GenerateNewPosition.
  replace (Food.segmentSize f =? 0) with false
    by (symmetry; now apply Z.eqb_neq).
  apply Z.ltb_ge in HhiX, HhiY. rewrite HhiX, HhiY. cbn [orb].
  apply Z.ltb_ge in HhiX, HhiY.
  cbn [Food.GenerateNewPosition_loop].
  destruct (uniform_int 0 _ (Food.rng f)) as [cx r1].
  cbn [Food.set_rng Food.set_pos_x Food.rng Food.segmentSize fst snd] in *.
  destruct (uniform_int 0 _ r1) as [cy r2].
  cbn [Food.set_rng Food.set_pos_y Food.set_pos_x Food.rng Food.segmentSize
       Food.boardWidth Food.boardHeight Food.pos x y fst snd] in *.
  apply find_coords_None in Hfree. cbn [x y] in Hfree. now rewrite Hfree.
Qed.

(** When the body covers every grid cell the call cannot return: the
    free cell of C6 is what makes a return possible. *)
Lemma GenerateNewPosition_full_board (fuel : nat) (snakeBody : list Position)
      (f f' : Food.t R) :
  0 < Food.segmentSize f ->
  Int.in_range (Food.boardWidth f) ->
  Int.in_range (Food.boardHeight f) ->
  1 <= Z.quot (Food.boardWidth f) (Food.segmentSize f) ->
  1 <= Z.quot (Food.boardHeight f) (Food.segmentSize f) ->
  ~ leaves_free_cell f snakeBody ->
  Food.GenerateNewPosition fuel snakeBody f <> Done f'.
Proof.
  intros Hseg HW HH HqW HqH Hfull Hrun. apply Hfull.
  destruct (GenerateNewPosition_Done fuel snakeBody f f' Hseg HW HH HqW HqH Hrun)
    as (Hcell & Hfree & _).
  exists (Food.pos f'). split; assumption.
Qed.

End FoodTheorems.

(** The 800x600 board with 20-pixel segments and the body of the snake
    built at (400,300): the call returns with the food at (140,120). *)
Lemma GenerateNewPosition_spec_witness :
  Food.GenerateNewPosition 5 (Snake.body (Snake.Snake 400 300 20))
    (Food.Food 800 600 20 7 (mkPosition 0 0))
  = Done (Food.mk (mkPosition 140 120) 800 600 20 642666333)
  /\ (0 <= 140 <= 800 - 20 /\ 0 <= 120 <= 600 - 20)
  /\ forall segment : Position,
       In segment (Snake.body (Snake.Snake 400 300 20)) ->
       segment <> mkPosition 140 120.
Proof.
  assert (Hrun : Food.GenerateNewPosition 5 (Snake.body (Snake.Snake 400 300 20))
                   (Food.Food 800 600 20 7 (mkPosition 0 0))
                 = Done (Food.mk (mkPosition 140 120) 800 600 20 642666333))
    by (vm_compute; reflexivity).
  destruct (GenerateNewPosition_spec 5 (Snake.body (Snake.Snake 400 300 20))
              (Food.Food 800 600 20 7 (mkPosition 0 0))
              (Food.mk (mkPosition 140 120) 800 600 20 642666333))
    as (_ & _ & Hx & Hy & Hfree).
  - simpl. lia.
  - unfold Int.in_range, Int.half_modulus. simpl. lia.
  - unfold Int.in_range, Int.half_modulus. simpl. lia.
  - exists (mkPosition 0 0). split.
    + exists 0, 0. repeat split; vm_compute; congruence.
    + vm_compute. intros [E|[E|[E|[]]]]; discriminate.
  - exact Hrun.
  - split; [exact Hrun|]. split; [split; assumption|exact Hfree].
Defined.

(* ================================================================= *)
(** ** Game: one tick *)

(** For [int] operands that are not negative, the sum converted to
    [unsigned int] is the exact sum. *)
Lemma unsigned_sum_exact (a b : Z) :
  Int.in_range a -> Int.in_range b -> 0 <= a -> 0 <= b ->
  UInt.wrap (Int.add a b) = a + b.
Proof.
  unfold Int.in_range, Int.half_modulus. intros Ha Hb Ha0 Hb0.
  unfold Int.add. rewrite UInt_wrap_Int_wrap.
  apply UInt_wrap_id. unfold UInt.in_range, Int.modulus. lia.
Qed.

Lemma outside_boardb_true (head : Position) (segmentSize width height : Z) :
  outside_boardb head segmentSize width height = true
  <-> outside_board head segmentSize width height.
Proof.
  unfold outside_boardb, outside_board.
  rewrite !orb_true_iff, !Z.ltb_lt, !Z.gtb_gt. tauto.
Qed.

Section GameFacts.
Context {R : Type} `{RandomSource R}.

(** The machine comparison of [Update] decides the exact wall condition
    when the head is an [int] position and the segment size a
    non-negative [int]. *)
Lemma hits_wall_exact (head : Position) (segmentSize : Z) (g : Game.t R) :
  representable head -> Int.in_range segmentSize -> 0 <= segmentSize ->
  Game.hits_wall head segmentSize g
  = outside_boardb head segmentSize (Game.Width g) (Game.Height g).
Proof.
  intros [Hx Hy] Hseg Hseg0. unfold Game.hits_wall, outside_boardb.
  destruct (x head <? 0) eqn:Hx0; [reflexivity|].
  apply Z.ltb_ge in Hx0.
  rewrite (unsigned_sum_exact (x head) segmentSize) by assumption.
  cbn [orb].
  destruct (x head + segmentSize >? Game.Width g); [reflexivity|].
  cbn [orb].
  destruct (y head <? 0) eqn:Hy0; [reflexivity|].
  apply Z.ltb_ge in Hy0.
  now rewrite (unsigned_sum_exact (y head) segmentSize) by assumption.
Qed.

Lemma Move_representable (snake snake1 : Snake.t) :
  Forall representable (Snake.body snake) ->
  Snake.Move snake = Done snake1 ->
  representable (Snake.GetHeadPosition snake1)
  /\ Snake.segmentSize snake1 = Snake.segmentSize snake.
Proof.
  intros Hbody Hmove.
  assert (Hsentinel : representable (mkPosition (-1) (-1))).
  { unfold representable, Int.in_range, Int.half_modulus. simpl. lia. }
  destruct (Direction_eqb (Snake.currentDirection snake) STOPPED) eqn:Hdir.
  - apply Direction_eqb_eq in Hdir. rewrite Move_stopped in Hmove by assumption.
    injection Hmove as <-. split; [|reflexivity].
    unfold Snake.GetHeadPosition.
    destruct (Snake.body snake) as [|front rest]; [assumption|].
    now inversion Hbody.
  - apply Direction_eqb_neq in Hdir.
    destruct (Snake.body snake) as [|front rest] eqn:Hb.
    + unfold Snake.Move in Hmove. apply Direction_eqb_neq in Hdir.
      rewrite Hdir, Hb in Hmove. discriminate.
    + rewrite (Move_moving snake front rest Hdir Hb) in Hmove.
      injection Hmove as <-. split; [|reflexivity].
      unfold Snake.GetHeadPosition. cbn [Snake.body].
      inversion Hbody as [|? ? [Hfx Hfy] _]; subst.
      destruct (Snake.currentDirection snake); cbn [Snake.advance];
        split; cbn [x y]; try assumption;
        unfold Int.add, Int.sub; apply Int_wrap_in_range.
Qed.

Lemma Update_inactive (fuel : nat) (g : Game.t R) :
  Game.State g <> GAME_ACTIVE -> Game.Update fuel g = Done g.
Proof.
  intros Hst. apply GameState_eqb_neq in Hst.
  unfold Game.Update. now rewrite Hst.
Qed.

Lemma Update_active (fuel : nat) (g : Game.t R)
      (snake : Snake.t) (food : Food.t R) :
  Game.State g = GAME_ACTIVE ->
  Game.PlayerSnake g = Some snake ->
  Game.GameFood g = Some food ->
  Forall representable (Snake.body snake) ->
  Int.in_range (Snake.segmentSize snake) ->
  0 <= Snake.segmentSize snake ->
  Game.Update fuel g = Update_in_words fuel g snake food.
Proof.
  intros Hst Hsnake Hfood Hbody Hseg Hseg0.
  destruct g as [st keys width height ps gf].
  cbn [Game.State Game.PlayerSnake Game.GameFood] in Hst, Hsnake, Hfood.
  subst st ps gf.
  unfold Game.Update, Update_in_words.
  cbn [Game.State Game.PlayerSnake GameState_eqb negb deref bind].
  destruct (Snake.Move snake) as [snake1| |] eqn:Hmove; cbn [bind];
    [|reflexivity|reflexivity].
  destruct (Move_representable snake snake1 Hbody Hmove) as [Hhead Hseg1].
  rewrite <- Hseg1 in Hseg, Hseg0.
  cbn [Game.set_PlayerSnake Game.GameFood Game.State Game.Keys Game.Width
       Game.Height deref bind].
  unfold step_eat, Position_eqb.
  destruct ((x (Snake.GetHeadPosition snake1) =? x (Food.GetPosition food))
            && (y (Snake.GetHeadPosition snake1) =? y (Food.GetPosition food))).
  - change (Snake.GetBody (Snake.Grow snake1)) with (Snake.body snake1).
    destruct (Food.GenerateNewPosition fuel (Snake.body snake1) food)
      as [food'| |]; cbn [bind]; [|reflexivity|reflexivity].
    cbn [Game.set_GameFood Game.set_PlayerSnake Game.PlayerSnake deref bind
         fst snd Game.State Game.Keys Game.Width Game.Height Game.GameFood].
    unfold step_wall, step_self_collision, Snake.GetSegmentSize.
    change (Snake.GetHeadPosition (Snake.Grow snake1))
      with (Snake.GetHeadPosition snake1).
    change (Snake.segmentSize (Snake.Grow snake1))
      with (Snake.segmentSize snake1).
    destruct (Snake.CheckSelfCollision (Snake.Grow snake1));
      rewrite (hits_wall_exact _ _ _ Hhead Hseg Hseg0);
      cbn [Game.set_State Game.set_GameFood Game.set_PlayerSnake
           Game.Width Game.Height Game.State Game.Keys
           Game.PlayerSnake Game.GameFood];
      destruct (outside_boardb _ _ _ _); reflexivity.
  - cbn [Game.set_GameFood Game.set_PlayerSnake Game.PlayerSnake deref bind
         fst snd Game.State Game.Keys Game.Width Game.Height Game.GameFood].
    unfold step_wall, step_self_collision, Snake.GetSegmentSize.
    destruct (Snake.CheckSelfCollision snake1);
      rewrite (hits_wall_exact _ _ _ Hhead Hseg Hseg0);
      cbn [Game.set_State Game.set_GameFood Game.set_PlayerSnake
           Game.Width Game.Height Game.State Game.Keys
           Game.PlayerSnake Game.GameFood];
      destruct (outside_boardb _ _ _ _); reflexivity.
Qed.

End GameFacts.

Section GameTick.
Context {R : Type} `{RandomSource R}.

(** The state a returning active tick ends in. *)
Lemma Update_in_words_state (fuel : nat) (g g' : Game.t R)
      (snake : Snake.t) (food : Food.t R) :
  Game.State g = GAME_ACTIVE ->
  Update_in_words fuel g snake food = Done g' ->
  exists (snake' : Snake.t) (food' : Food.t R),
    Game.PlayerSnake g' = Some snake'
    /\ Game.GameFood g' = Some food'
    /\ (Game.State g' = GAME_OVER <->
        Snake.CheckSelfCollision snake' = true
        \/ outside_board (Snake.GetHeadPosition snake')
                         (Snake.segmentSize snake')
                         (Game.Width g) (Game.Height g))
    /\ (Game.State g' = GAME_ACTIVE \/ Game.State g' = GAME_OVER).
Proof.
  intros Hst Hrun. unfold Update_in_words in Hrun.
  destruct (Snake.Move snake) as [snake1| |]; cbn [bind] in Hrun;
    try discriminate.
  destruct (step_eat fuel snake1 food) as [[snake' food']| |];
    cbn [bind fst snd] in Hrun; try discriminate.
  injection Hrun as <-. exists snake', food'.
  cbn [Game.PlayerSnake Game.GameFood Game.State].
  split; [reflexivity|]. split; [reflexivity|].
  unfold step_wall, step_self_collision. rewrite Hst.
  rewrite <- outside_boardb_true.
  destruct (Snake.CheckSelfCollision snake'), (outside_boardb _ _ _ _);
    split; try (split; [intros _; auto | intros _; reflexivity]);
    try (right; reflexivity); try (left; reflexivity).
  split; [discriminate|]. intros [?|?]; discriminate.
Qed.

(** C2.  [Update] returns the game unchanged whenever [State] is not
    [GAME_ACTIVE].  On an active game (snake and food allocated, segment
    positions [int] values, segment size a non-negative [int]) it is the
    sequence of the specification: [Move]; then, if the head is on the
    food, [Grow] and [GenerateNewPosition] on the body; then the
    self-collision test; then the wall test on the four exact
    comparisons head.x < 0, head.x + segmentSize > width, head.y < 0,
    head.y + segmentSize > height.  Both tests are made on every active
    tick, and the tick ends in [GAME_OVER] exactly when one of them
    holds. *)
Theorem Update_spec (fuel : nat) (g : Game.t R) :
  (Game.State g <> GAME_ACTIVE -> Game.Update fuel g = Done g)
  /\ (forall (snake : Snake.t) (food : Food.t R),
        Game.State g = GAME_ACTIVE ->
        Game.PlayerSnake g = Some snake ->
        Game.GameFood g = Some food ->
        Forall representable (Snake.body snake) ->
        Int.in_range (Snake.segmentSize snake) ->
        0 <= Snake.segmentSize snake ->
        Game.Update fuel g = Update_in_words fuel g snake food
        /\ forall g' : Game.t R,
             Game.Update fuel g = Done g' ->
             exists (snake' : Snake.t) (food' : Food.t R),
               Game.PlayerSnake g' = Some snake'
               /\ Game.GameFood g' = Some food'
               /\ (Game.State g' = GAME_OVER <->
                   Snake.CheckSelfCollision snake' = true
                   \/ outside_board (Snake.GetHeadPosition snake')
                                    (Snake.segmentSize snake')
                                    (Game.Width g) (Game.Height g))
               /\ (Game.State g' = GAME_ACTIVE \/ Game.State g' = GAME_OVER)).
Proof.
  split; [apply Update_inactive|].
  intros snake food Hst Hsnake Hfood Hbody Hseg Hseg0.
  pose proof (Update_active fuel g snake food Hst Hsnake Hfood Hbody Hseg Hseg0)
    as Hrefine.
  split; [exact Hrefine|].
  intros g' Hrun. rewrite Hrefine in Hrun.
  exact (Update_in_words_state fuel g g' snake food Hst Hrun).
Qed.

End GameTick.

(** A finished game is left alone; an active 800x600 game whose snake heads
    LEFT from (360,300) makes one plain move and stays active. *)
Lemma Update_spec_witness :
  Game.Update 5
    (Game.mk GAME_OVER (fun _ => false) 800 600
             (Some (Snake.Snake 400 300 20))
             (Some (Food.mk (mkPosition 140 120) 800 600 20 1)))
  = Done (Game.mk GAME_OVER (fun _ => false) 800 600
                  (Some (Snake.Snake 400 300 20))
                  (Some (Food.mk (mkPosition 140 120) 800 600 20 1)))
  /\ Game.Update 5
       (Game.mk GAME_ACTIVE (fun _ => false) 800 600
                (Some (Snake.SetDirection LEFT (Snake.Snake 400 300 20)))
                (Some (Food.mk (mkPosition 140 120) 800 600 20 1)))
     = Update_in_words 5
         (Game.mk GAME_ACTIVE (fun _ => false) 800 600
                  (Some (Snake.SetDirection LEFT (Snake.Snake 400 300 20)))
                  (Some (Food.mk (mkPosition 140 120) 800 600 20 1)))
         (Snake.SetDirection LEFT (Snake.Snake 400 300 20))
         (Food.mk (mkPosition 140 120) 800 600 20 1).
Proof.
  split.
  - destruct (Update_spec 5
                (Game.mk GAME_OVER (fun _ => false) 800 600
                         (Some (Snake.Snake 400 300 20))
                         (Some (Food.mk (mkPosition 140 120) 800 600 20 1))))
      as (Hidle & _).
    apply Hidle. simpl. discriminate.
  - destruct (Update_spec 5
                (Game.mk GAME_ACTIVE (fun _ => false) 800 600
                         (Some (Snake.SetDirection LEFT (Snake.Snake 400 300 20)))
                         (Some (Food.mk (mkPosition 140 120) 800 600 20 1))))
      as (_ & Hactive).
    destruct (Hactive (Snake.SetDirection LEFT (Snake.Snake 400 300 20))
                      (Food.mk (mkPosition 140 120) 800 600 20 1))
      as (Hrefine & _).
    + reflexivity.
    + reflexivity.
    + reflexivity.
    + change (Forall representable
                [mkPosition 360 300; mkPosition 380 300; mkPosition 400 300]).
      repeat (apply Forall_cons || apply Forall_nil);
        unfold representable, Int.in_range, Int.half_modulus; simpl; lia.
    + unfold Int.in_range, Int.half_modulus. simpl. lia.
    + simpl. lia.
    + exact Hrefine.
Defined.

(* ================================================================= *)
(** ** Game: eating *)

Section GameEating.
Context {R : Type} `{RandomSource R}.

Lemma GenerateNewPosition_loop_free (snakeBody : list Position) (hiX hiY : Z) :
  forall (fuel : nat) (f f' : Food.t R),
    Food.GenerateNewPosition_loop fuel snakeBody hiX hiY f = Done f' ->
    ~ In (Food.pos f') snakeBody.
Proof.
  induction fuel as [|fuel IH]; intros f f' Hrun; [discriminate|].
  cbn [Food.GenerateNewPosition_loop] in Hrun.
  destruct (uniform_int 0 hiX (Food.rng f)) as [cx r1].
  destruct (uniform_int 0 hiY _) as [cy r2].
  match type of Hrun with
  | match find ?p ?b with _ => _ end = _ => destruct (find p b) eqn:Hfind
  end.
  - exact (IH _ _ Hrun).
  - injection Hrun as <-. apply find_coords_None in Hfind. exact Hfind.
Qed.

(** A returning call leaves the food off the body it was given. *)
Lemma GenerateNewPosition_free (fuel : nat) (snakeBody : list Position)
      (f f' : Food.t R) :
  Food.GenerateNewPosition fuel snakeBody f = Done f' ->
  ~ In (Food.pos f') snakeBody.
Proof.
  unfold Food.GenerateNewPosition. intros Hrun.
  destruct (Food.segmentSize f =? 0); [discriminate|].
  destruct (_ || _); [discriminate|].
  exact (GenerateNewPosition_loop_free _ _ _ _ _ _ Hrun).
Qed.

(** C5, amended.  [Update] tests for food after its [Move].  In an active
    game whose snake has its head on the food once that [Move] is done, a
    returning [Update] keeps the body as the [Move] left it, sets
    [growNextMove], and stores a new food position that differs from
    every segment of that body; the body gets longer by exactly one at
    the next [Move] made in a direction other than [STOPPED]. *)
Theorem Update_eats_after_move (fuel : nat) (g g' : Game.t R)
        (snake snake1 : Snake.t) (food : Food.t R) :
  Game.State g = GAME_ACTIVE ->
  Game.PlayerSnake g = Some snake ->
  Game.GameFood g = Some food ->
  Snake.Move snake = Done snake1 ->
  Snake.GetHeadPosition snake1 = Food.GetPosition food ->
  Game.Update fuel g = Done g' ->
  exists food' : Food.t R,
    Game.PlayerSnake g' = Some (Snake.Grow snake1)
    /\ Game.GameFood g' = Some food'
    /\ Food.GenerateNewPosition fuel (Snake.body snake1) food = Done food'
    /\ Snake.body (Snake.Grow snake1) = Snake.body snake1
    /\ Snake.growNextMove (Snake.Grow snake1) = true
    /\ (forall segment : Position,
          In segment (Snake.body snake1) ->
          segment <> Food.GetPosition food')
    /\ (forall (front : Position) (rest : list Position),
          Snake.currentDirection snake1 <> STOPPED ->
          Snake.body snake1 = front :: rest ->
          exists snake2 : Snake.t,
            Snake.Move (Snake.Grow snake1) = Done snake2
            /\ length (Snake.body snake2) = S (length (Snake.body snake1))).
Proof.
  intros Hst Hsnake Hfood Hmove Hhead Hrun.
  destruct g as [st keys width height ps gf].
  cbn [Game.State Game.PlayerSnake Game.GameFood] in Hst, Hsnake, Hfood.
  subst st ps gf.
  unfold Game.Update in Hrun.
  cbn [Game.State Game.PlayerSnake GameState_eqb negb deref bind] in Hrun.
  rewrite Hmove in Hrun.
  cbn [bind Game.set_PlayerSnake Game.GameFood Game.State Game.Keys
       Game.Width Game.Height deref] in Hrun.
  rewrite Hhead, !Z.eqb_refl in Hrun. cbn [andb] in Hrun.
  change (Snake.GetBody (Snake.Grow snake1)) with (Snake.body snake1) in Hrun.
  destruct (Food.GenerateNewPosition fuel (Snake.body snake1) food)
    as [food'| |] eqn:Hgen; cbn [bind] in Hrun; try discriminate.
  cbn [Game.set_GameFood Game.set_PlayerSnake Game.PlayerSnake deref bind
       Game.State Game.Keys Game.Width Game.Height Game.GameFood] in Hrun.
  exists food'.
  assert (Hg' : Game.PlayerSnake g' = Some (Snake.Grow snake1)
                /\ Game.GameFood g' = Some food').
  { injection Hrun as <-.
    destruct (Snake.CheckSelfCollision _), (Game.hits_wall _ _ _);
      split; reflexivity. }
  destruct Hg' as [Hps Hgf].
  split; [exact Hps|]. split; [exact Hgf|]. split; [reflexivity|].
  split; [reflexivity|]. split; [reflexivity|]. split.
  - intros segment Hin Heq.
    apply (GenerateNewPosition_free _ _ _ _ Hgen).
    unfold Food.GetPosition in Heq. now rewrite <- Heq.
  - intros front rest Hdir Hbody. eexists. split.
    + apply (Move_moving (Snake.Grow snake1) front rest); assumption.
    + cbn [Snake.body Snake.Grow Snake.set_growNextMove Snake.growNextMove
           length]. reflexivity.
Qed.

End GameEating.

(** C5, as stated, fails.  Active 800x600 game, snake heading LEFT with
    its head at (360,300), food at (360,300): [Update] moves the head to
    (340,300), off the food, so nothing is eaten; the body still has 3
    segments and the food is still at (360,300), now under the second
    segment. *)
Lemma eating_grows_at_once_fails : ~ @eating_grows_at_once Z lcg.
Proof.
  intros Hclaim.
  destruct (Hclaim 5%nat
              (Game.mk GAME_ACTIVE (fun _ => false) 800 600
                       (Some (Snake.SetDirection LEFT (Snake.Snake 400 300 20)))
                       (Some (Food.mk (mkPosition 360 300) 800 600 20 1)))
              (Game.mk GAME_ACTIVE (fun _ => false) 800 600
                       (Some (Snake.mk [mkPosition 340 300; mkPosition 360 300;
                                        mkPosition 380 300] LEFT LEFT 20 false))
                       (Some (Food.mk (mkPosition 360 300) 800 600 20 1)))
              (Snake.SetDirection LEFT (Snake.Snake 400 300 20))
              (Snake.mk [mkPosition 340 300; mkPosition 360 300;
                         mkPosition 380 300] LEFT LEFT 20 false)
              (Food.mk (mkPosition 360 300) 800 600 20 1)
              (Food.mk (mkPosition 360 300) 800 600 20 1))
    as [Hlen _]; try reflexivity.
  simpl in Hlen. discriminate.
Qed.

(** The same snake with the food one cell ahead, at (340,300): the tick
    eats, the body keeps 3 segments until the next move, the new food is
    at (20,0). *)
Lemma Update_eats_after_move_witness :
  exists food' : Food.t Z,
    Game.GameFood
      (Game.mk GAME_ACTIVE (fun _ => false) 800 600
               (Some (Snake.mk [mkPosition 340 300; mkPosition 360 300;
                                mkPosition 380 300] LEFT LEFT 20 true))
               (Some (Food.mk (mkPosition 20 0) 800 600 20 377401575)))
    = Some food'
    /\ Food.GenerateNewPosition 5
         [mkPosition 340 300; mkPosition 360 300; mkPosition 380 300]
         (Food.mk (mkPosition 340 300) 800 600 20 1) = Done food'
    /\ forall segment : Position,
         In segment [mkPosition 340 300; mkPosition 360 300; mkPosition 380 300] ->
         segment <> Food.GetPosition food'.
Proof.
  destruct (Update_eats_after_move 5
              (Game.mk GAME_ACTIVE (fun _ => false) 800 600
                       (Some (Snake.SetDirection LEFT (Snake.Snake 400 300 20)))
                       (Some (Food.mk (mkPosition 340 300) 800 600 20 1)))
              (Game.mk GAME_ACTIVE (fun _ => false) 800 600
                       (Some (Snake.mk [mkPosition 340 300; mkPosition 360 300;
                                        mkPosition 380 300] LEFT LEFT 20 true))
                       (Some (Food.mk (mkPosition 20 0) 800 600 20 377401575)))
              (Snake.SetDirection LEFT (Snake.Snake 400 300 20))
              (Snake.mk [mkPosition 340 300; mkPosition 360 300;
                         mkPosition 380 300] LEFT LEFT 20 false)
              (Food.mk (mkPosition 340 300) 800 600 20 1))
    as (food' & _ & Hgf & Hgen & _ & _ & Hfree & _); try reflexivity.
  exists food'. split; [exact Hgf|]. split; [exact Hgen|exact Hfree].
Defined.

(* ================================================================= *)
(** ** Game: the OVER state and the restart *)

Lemma board_center (width : Z) :
  UInt.in_range width -> Int.wrap (UInt.div width 2) = width / 2.
Proof.
  unfold UInt.in_range, Int.modulus. intros Hw.
  assert (Hhalf : 0 <= width / 2 < 2147483648).
  { split; [apply Z.div_pos; lia|].
    apply Z.div_lt_upper_bound; lia. }
  unfold UInt.div. rewrite UInt_wrap_id
    by (unfold UInt.in_range, Int.modulus; lia).
  apply Int_wrap_id. unfold Int.in_range, Int.half_modulus. lia.
Qed.

Lemma board_cells (w : Z) :
  20 <= w < Int.half_modulus ->
  Int.wrap w = w
  /\ Int.sub (Int.div w 20) 1 = Z.quot w 20 - 1
  /\ 0 <= Z.quot w 20 - 1.
Proof.
  unfold Int.half_modulus. intros Hw.
  assert (Hq : 1 <= Z.quot w 20 <= w).
  { rewrite Z.quot_div_nonneg by lia. split.
    - apply Z.div_le_lower_bound; lia.
    - pose proof (Z.mul_div_le w 20 ltac:(lia)). lia. }
  split; [apply Int_wrap_id; unfold Int.in_range, Int.half_modulus; lia|].
  split; [|lia].
  unfold Int.sub, Int.div.
  rewrite (Int_wrap_id (Z.quot w 20)), Int_wrap_id;
    unfold Int.in_range, Int.half_modulus; lia.
Qed.

Section FoodReturns.
Context {R : Type} `{RandomSource R}.

(** Enough fuel gives the result: when the cell drawn in iteration [n] is
    off the body, the loop returns within [n + 1] iterations, with a food
    position off the body. *)
Lemma GenerateNewPosition_loop_returns_within (snakeBody : list Position)
      (hiX hiY seg : Z) :
  forall (n fuel : nat) (f : Food.t R),
    (n < fuel)%nat ->
    Food.segmentSize f = seg ->
    ~ In (fst (drawn_cell hiX hiY seg (rng_after hiX hiY seg n (Food.rng f))))
         snakeBody ->
    exists f' : Food.t R,
      Food.GenerateNewPosition_loop fuel snakeBody hiX hiY f = Done f'
      /\ ~ In (Food.pos f') snakeBody.
Proof.
  induction n as [|n IH]; intros fuel f Hlt Hseg Hfree;
    (destruct fuel as [|fuel]; [lia|]);
    cbn [rng_after] in Hfree; unfold drawn_cell in Hfree;
    cbn [Food.GenerateNewPosition_loop];
    destruct (uniform_int 0 hiX (Food.rng f)) as [cx r1];
    cbn [Food.set_rng Food.set_pos_x Food.rng Food.segmentSize
         Food.boardWidth Food.boardHeight Food.pos];
    destruct (uniform_int 0 hiY r1) as [cy r2];
    cbn [Food.set_rng Food.set_pos_y Food.set_pos_x Food.rng Food.segmentSize
         Food.boardWidth Food.boardHeight Food.pos x y fst snd] in *;
    rewrite ?Hseg;
    match goal with
    | |- context [match find ?p ?b with _ => _ end] =>
        destruct (find p b) eqn:Hfind
    end.
  - exfalso.
    apply (find_coords_None (mkPosition (Int.mul cx seg) (Int.mul cy seg)))
      in Hfree.
    cbn [x y] in Hfree. congruence.
  - eexists. split; [reflexivity|]. cbn [Food.pos].
    apply (find_coords_None (mkPosition (Int.mul cx seg) (Int.mul cy seg))).
    exact Hfind.
  - apply IH; [lia|exact Hseg|exact Hfree].
  - eexists. split; [reflexivity|]. cbn [Food.pos].
    apply (find_coords_None (mkPosition (Int.mul cx seg) (Int.mul cy seg))).
    exact Hfind.
Qed.

Lemma GenerateNewPosition_returns_within (fuel n : nat)
      (snakeBody : list Position) (f : Food.t R) (hiX hiY : Z) :
  Food.segmentSize f <> 0 ->
  hiX = Int.sub (Int.div (Food.boardWidth f) (Food.segmentSize f)) 1 ->
  hiY = Int.sub (Int.div (Food.boardHeight f) (Food.segmentSize f)) 1 ->
  0 <= hiX -> 0 <= hiY ->
  (n < fuel)%nat ->
  ~ In (fst (drawn_cell hiX hiY (Food.segmentSize f)
               (rng_after hiX hiY (Food.segmentSize f) n (Food.rng f))))
       snakeBody ->
  exists f' : Food.t R,
    Food.GenerateNewPosition fuel snakeBody f = Done f'
    /\ ~ In (Food.pos f') snakeBody.
Proof.
  intros Hseg -> -> HhiX HhiY Hlt Hfree.
  unfold Food.GenerateNewPosition.
  replace (Food.segmentSize f =? 0) with false
    by (symmetry; now apply Z.eqb_neq).
  apply Z.ltb_ge in HhiX, HhiY. rewrite HhiX, HhiY. cbn [orb].
  apply (GenerateNewPosition_loop_returns_within snakeBody _ _
           (Food.segmentSize f) n); [exact Hlt|reflexivity|exact Hfree].
Qed.

End FoodReturns.

Section GameOver.
Context {R : Type} `{RandomSource R}.

(** What [Init] and [ResetGame] build: it depends on the board size and
    the key array of the game only, not on the objects it held. *)
Lemma create_objects_result (fuel : nat) (rd : Z) (indeterminate : Position)
      (g : Game.t R) :
  Game.create_objects fuel rd indeterminate g =
  (food' <- Food.GenerateNewPosition fuel
              (Snake.body (Snake.Snake (Int.wrap (UInt.div (Game.Width g) 2))
                                       (Int.wrap (UInt.div (Game.Height g) 2))
                                       Snake.default_segmentSize))
              (Food.Food (Int.wrap (Game.Width g)) (Int.wrap (Game.Height g))
                         Snake.default_segmentSize rd indeterminate) ;;
   Done (Game.mk GAME_ACTIVE (Game.Keys g) (Game.Width g) (Game.Height g)
                 (Some (Snake.Snake (Int.wrap (UInt.div (Game.Width g) 2))
                                    (Int.wrap (UInt.div (Game.Height g) 2))
                                    Snake.default_segmentSize))
                 (Some food'))).
Proof.
  unfold Game.create_objects.
  cbn [Game.set_PlayerSnake Game.set_GameFood Game.set_State Game.PlayerSnake
       Game.GameFood Game.Width Game.Height Game.Keys Game.State deref bind].
  reflexivity.
Qed.

Lemma ResetGame_is_Init (fuel : nat) (rd : Z) (indeterminate : Position)
      (g : Game.t R) :
  Game.ResetGame fuel rd indeterminate g = Game.Init fuel rd indeterminate g.
Proof.
  unfold Game.ResetGame, Game.Init. now rewrite !create_objects_result.
Qed.

Lemma ProcessInput_over (fuel : nat) (rd : Z) (indeterminate : Position)
      (g : Game.t R) :
  Game.State g = GAME_OVER ->
  Game.ProcessInput fuel rd indeterminate g =
  if Game.Keys g GLFW_KEY_R then Game.ResetGame fuel rd indeterminate g
  else Done g.
Proof. intros Hst. unfold Game.ProcessInput. now rewrite Hst. Qed.

(** C9.  In state [GAME_OVER]: [Update] returns the game unchanged, and so
    does [ProcessInput] when the restart key R is not held, whatever
    other keys are.  With R held, [ProcessInput] is [ResetGame], which is
    [Init]: whatever snake and food the game held, a returning reset
    leaves a snake freshly constructed at the board centre
    (Width/2, Height/2) with the default segment size, 3 segments long, a
    fresh food whose position was generated against that body, and state
    [GAME_ACTIVE].  No [Update] or [ProcessInput] leaves [GAME_OVER] in
    any other way.  The restart does happen: on a board of at least one
    cell each way (dimensions from 20 up, [int] values), as soon as one of
    the first [fuel] cells the food loop draws is off the fresh body,
    [ProcessInput] with R held returns that game in state [GAME_ACTIVE]. *)
Theorem GameOver_until_restart (fuel : nat) (rd : Z) (indeterminate : Position)
        (g : Game.t R) :
  Game.State g = GAME_OVER ->
  UInt.in_range (Game.Width g) ->
  UInt.in_range (Game.Height g) ->
  Game.Update fuel g = Done g
  /\ (Game.Keys g GLFW_KEY_R = false ->
      Game.ProcessInput fuel rd indeterminate g = Done g)
  /\ (Game.Keys g GLFW_KEY_R = true ->
      Game.ProcessInput fuel rd indeterminate g
      = Game.ResetGame fuel rd indeterminate g)
  /\ Game.ResetGame fuel rd indeterminate g = Game.Init fuel rd indeterminate g
  /\ (forall (p : option Snake.t) (q : option (Food.t R)),
        Game.ResetGame fuel rd indeterminate
          (Game.set_GameFood q (Game.set_PlayerSnake p g))
        = Game.ResetGame fuel rd indeterminate g)
  /\ (forall g' : Game.t R,
        Game.ResetGame fuel rd indeterminate g = Done g' ->
        Game.State g' = GAME_ACTIVE
        /\ Game.PlayerSnake g'
           = Some (Snake.Snake (Game.Width g / 2) (Game.Height g / 2) 20)
        /\ length (Snake.body (Snake.Snake (Game.Width g / 2)
                                           (Game.Height g / 2) 20)) = 3%nat
        /\ (exists food' : Food.t R,
              Game.GameFood g' = Some food'
              /\ Food.GenerateNewPosition fuel
                   (Snake.body (Snake.Snake (Game.Width g / 2)
                                            (Game.Height g / 2) 20))
                   (Food.Food (Int.wrap (Game.Width g))
                              (Int.wrap (Game.Height g)) 20 rd indeterminate)
                 = Done food'
              /\ ~ In (Food.GetPosition food')
                      (Snake.body (Snake.Snake (Game.Width g / 2)
                                               (Game.Height g / 2) 20)))
        /\ Game.Width g' = Game.Width g
        /\ Game.Height g' = Game.Height g)
  /\ (forall g' : Game.t R,
        Game.Update fuel g = Done g'
        \/ Game.ProcessInput fuel rd indeterminate g = Done g' ->
        Game.State g' <> GAME_OVER ->
        Game.Keys g GLFW_KEY_R = true
        /\ Game.ResetGame fuel rd indeterminate g = Done g'
        /\ Game.State g' = GAME_ACTIVE)
  /\ (Game.Keys g GLFW_KEY_R = true ->
      20 <= Game.Width g < Int.half_modulus ->
      20 <= Game.Height g < Int.half_modulus ->
      forall n : nat,
        (n < fuel)%nat ->
        ~ In (fst (drawn_cell (Z.quot (Game.Width g) 20 - 1)
                              (Z.quot (Game.Height g) 20 - 1) 20
                     (rng_after (Z.quot (Game.Width g) 20 - 1)
                                (Z.quot (Game.Height g) 20 - 1) 20 n
                                (seed rd))))
             (Snake.body (Snake.Snake (Game.Width g / 2)
                                      (Game.Height g / 2) 20)) ->
        exists food' : Food.t R,
          Game.ProcessInput fuel rd indeterminate g
          = Done (Game.mk GAME_ACTIVE (Game.Keys g) (Game.Width g)
                          (Game.Height g)
                          (Some (Snake.Snake (Game.Width g / 2)
                                             (Game.Height g / 2) 20))
                          (Some food'))
          /\ ~ In (Food.GetPosition food')
                  (Snake.body (Snake.Snake (Game.Width g / 2)
                                           (Game.Height g / 2) 20))).
Proof.
  intros Hst HW HH.
  assert (Hupd : Game.Update fuel g = Done g).
  { apply Update_inactive. rewrite Hst. discriminate. }
  assert (Hreset : forall g' : Game.t R,
             Game.ResetGame fuel rd indeterminate g = Done g' ->
             Game.State g' = GAME_ACTIVE).
  { intros g' Hrun. unfold Game.ResetGame in Hrun.
    rewrite create_objects_result in Hrun.
    destruct (Food.GenerateNewPosition _ _ _); cbn [bind] in Hrun;
      try discriminate.
    now injection Hrun as <-. }
  split; [exact Hupd|].
  split; [intros Hkey; rewrite ProcessInput_over, Hkey by assumption;
          reflexivity|].
  split; [intros Hkey; rewrite ProcessInput_over, Hkey by assumption;
          reflexivity|].
  split; [apply ResetGame_is_Init|].
  split; [intros p q; unfold Game.ResetGame;
          now rewrite !create_objects_result|].
  split; [|split].
  - intros g' Hrun. split; [now apply Hreset|].
    unfold Game.ResetGame in Hrun. rewrite create_objects_result in Hrun.
    cbn [Game.set_PlayerSnake Game.set_GameFood Game.Width Game.Height
         Game.Keys] in Hrun.
    rewrite !board_center in Hrun by assumption.
    change Snake.default_segmentSize with 20 in Hrun.
    destruct (Food.GenerateNewPosition _ _ _) as [food'| |] eqn:Hgen;
      cbn [bind] in Hrun; try discriminate.
    injection Hrun as <-.
    cbn [Game.PlayerSnake Game.GameFood Game.Width Game.Height].
    split; [reflexivity|]. split; [reflexivity|]. split.
    + exists food'. split; [reflexivity|]. split; [reflexivity|].
      exact (GenerateNewPosition_free _ _ _ _ Hgen).
    + split; reflexivity.
  - intros g' [Hrun|Hrun] Hleft.
    + rewrite Hupd in Hrun. injection Hrun as <-. contradiction.
    + rewrite ProcessInput_over in Hrun by assumption.
      destruct (Game.Keys g GLFW_KEY_R).
      * split; [reflexivity|]. split; [exact Hrun|]. now apply Hreset.
      * injection Hrun as <-. contradiction.
  - intros Hkey Hwide Hhigh n Hn Hfree.
    destruct (board_cells _ Hwide) as (HwW & HhiX & HhiX0).
    destruct (board_cells _ Hhigh) as (HwH & HhiY & HhiY0).
    rewrite ProcessInput_over, Hkey by assumption.
    unfold Game.ResetGame. rewrite create_objects_result.
    cbn [Game.set_PlayerSnake Game.set_GameFood Game.Width Game.Height
         Game.Keys].
    rewrite !board_center by assumption.
    change Snake.default_segmentSize with 20. rewrite HwW, HwH.
    destruct (GenerateNewPosition_returns_within fuel n
                (Snake.body (Snake.Snake (Game.Width g / 2)
                                         (Game.Height g / 2) 20))
                (Food.Food (Game.Width g) (Game.Height g) 20 rd indeterminate)
                (Z.quot (Game.Width g) 20 - 1) (Z.quot (Game.Height g) 20 - 1))
      as (food' & Hgen & Hoff);
      try (symmetry; assumption); try assumption; [discriminate|].
    rewrite Hgen. cbn [bind]. exists food'. split; [reflexivity|exact Hoff].
Qed.

End GameOver.

(** A finished 800x600 game: ticks and steering keys change nothing, the R
    key restarts it. *)
Lemma GameOver_until_restart_witness :
  Game.ProcessInput 5 7 (mkPosition 0 0)
    (Game.mk GAME_OVER (fun k => k =? GLFW_KEY_LEFT) 800 600
             (Some (Snake.Snake 20 300 20))
             (Some (Food.mk (mkPosition 340 300) 800 600 20 1)))
  = Done (Game.mk GAME_OVER (fun k => k =? GLFW_KEY_LEFT) 800 600
                  (Some (Snake.Snake 20 300 20))
                  (Some (Food.mk (mkPosition 340 300) 800 600 20 1)))
  /\ Game.ProcessInput 5 7 (mkPosition 0 0)
       (Game.mk GAME_OVER (fun k => k =? GLFW_KEY_R) 800 600
                (Some (Snake.Snake 20 300 20))
                (Some (Food.mk (mkPosition 340 300) 800 600 20 1)))
     = Game.ResetGame 5 7 (mkPosition 0 0)
         (Game.mk GAME_OVER (fun k => k =? GLFW_KEY_R) 800 600
                  (Some (Snake.Snake 20 300 20))
                  (Some (Food.mk (mkPosition 340 300) 800 600 20 1)))
  /\ Game.ResetGame 5 7 (mkPosition 0 0)
       (Game.mk GAME_OVER (fun k => k =? GLFW_KEY_R) 800 600
                (Some (Snake.Snake 20 300 20))
                (Some (Food.mk (mkPosition 340 300) 800 600 20 1)))
     = Done (Game.mk GAME_ACTIVE (fun k => k =? GLFW_KEY_R) 800 600
                     (Some (Snake.Snake 400 300 20))
                     (Some (Food.mk (mkPosition 140 120) 800 600 20 642666333)))
  /\ exists food' : Food.t Z,
       Game.ProcessInput 5 7 (mkPosition 0 0)
         (Game.mk GAME_OVER (fun k => k =? GLFW_KEY_R) 800 600
                  (Some (Snake.Snake 20 300 20))
                  (Some (Food.mk (mkPosition 340 300) 800 600 20 1)))
       = Done (Game.mk GAME_ACTIVE (fun k => k =? GLFW_KEY_R) 800 600
                       (Some (Snake.Snake 400 300 20)) (Some food'))
       /\ ~ In (Food.GetPosition food') (Snake.body (Snake.Snake 400 300 20)).
Proof.
  assert (Hboard : UInt.in_range 800 /\ UInt.in_range 600)
    by (unfold UInt.in_range, Int.modulus; lia).
  destruct Hboard as [H800 H600].
  split; [|split; [|split]].
  - destruct (GameOver_until_restart 5 7 (mkPosition 0 0)
                (Game.mk GAME_OVER (fun k => k =? GLFW_KEY_LEFT) 800 600
                         (Some (Snake.Snake 20 300 20))
                         (Some (Food.mk (mkPosition 340 300) 800 600 20 1))))
      as (_ & Hidle & _); [reflexivity|exact H800|exact H600|].
    apply Hidle. reflexivity.
  - destruct (GameOver_until_restart 5 7 (mkPosition 0 0)
                (Game.mk GAME_OVER (fun k => k =? GLFW_KEY_R) 800 600
                         (Some (Snake.Snake 20 300 20))
                         (Some (Food.mk (mkPosition 340 300) 800 600 20 1))))
      as (_ & _ & Hrestart & _); [reflexivity|exact H800|exact H600|].
    apply Hrestart. reflexivity.
  - vm_compute. reflexivity.
  - destruct (GameOver_until_restart 5 7 (mkPosition 0 0)
                (Game.mk GAME_OVER (fun k => k =? GLFW_KEY_R) 800 600
                         (Some (Snake.Snake 20 300 20))
                         (Some (Food.mk (mkPosition 340 300) 800 600 20 1))))
      as (_ & _ & _ & _ & _ & _ & _ & Hreturns);
      [reflexivity|exact H800|exact H600|].
    apply (Hreturns eq_refl) with (n := 0%nat).
    + unfold Int.half_modulus. simpl. lia.
    + unfold Int.half_modulus. simpl. lia.
    + lia.
    + vm_compute. intros [E|[E|[E|[]]]]; discriminate E.
Defined.

(** The scenario of the specification: a snake with its head at x = 0
    moves LEFT, the tick ends the game, and a [ProcessInput] with R held
    starts a new one with a fresh 3-segment snake. *)
Lemma wall_then_restart_scenario :
  exists g1 g2 : Game.t Z,
    Game.Update 5
      (Game.mk GAME_ACTIVE (fun k => k =? GLFW_KEY_R) 800 600
               (Some (Snake.mk [mkPosition 0 300; mkPosition 20 300;
                                mkPosition 40 300] LEFT LEFT 20 false))
               (Some (Food.mk (mkPosition 140 120) 800 600 20 1)))
    = Done g1
    /\ Game.State g1 = GAME_OVER
    /\ Game.ProcessInput 5 7 (mkPosition 0 0) g1 = Done g2
    /\ Game.State g2 = GAME_ACTIVE
    /\ Game.PlayerSnake g2 = Some (Snake.Snake 400 300 20).
Proof. do 2 eexists. repeat split. Qed.

(* ================================================================= *)
(** ** Further properties of the snake *)

Lemma Int_wrap_add_l (a b : Z) : Int.wrap (Int.wrap a + b) = Int.wrap (a + b).
Proof.
  unfold Int.wrap, Int.half_modulus, Int.modulus. f_equal.
  replace ((a + 2147483648) mod 4294967296 - 2147483648 + b + 2147483648)
    with ((a + 2147483648) mod 4294967296 + b) by lia.
  rewrite Zplus_mod_idemp_l. f_equal. lia.
Qed.

Lemma Int_wrap_sub_r (a b : Z) : Int.wrap (a - Int.wrap b) = Int.wrap (a - b).
Proof.
  unfold Int.wrap, Int.half_modulus, Int.modulus. f_equal.
  replace (a - ((b + 2147483648) mod 4294967296 - 2147483648) + 2147483648)
    with (a + 4294967296 - (b + 2147483648) mod 4294967296) by lia.
  rewrite Zminus_mod_idemp_r. f_equal. lia.
Qed.

(** An invariant of single calls holds after every sequence of calls. *)
Lemma calls_invariant (P : Snake.t -> Prop) :
  (forall c s, P s -> exists s', call c s = Done s' /\ P s') ->
  forall cs s, P s -> exists s', calls cs s = Done s' /\ P s'.
Proof.
  intros Hstep. induction cs as [|c cs IH]; intros s Hs; simpl.
  - exists s. split; [reflexivity|exact Hs].
  - destruct (Hstep c s Hs) as (s1 & Hc & Hs1). rewrite Hc. simpl.
    exact (IH s1 Hs1).
Qed.

(** X1.  [Grow] sets a flag, it does not count: growing twice is growing
    once.  The move that follows returns with the new head put in front of
    the whole old body, so every old segment, the tail included, is still
    there one index further back, and the flag is used up: the move after
    that keeps the length. *)
Theorem Grow_is_a_flag (s : Snake.t) (front : Position) (rest : list Position) :
  Snake.currentDirection s <> STOPPED ->
  Snake.body s = front :: rest ->
  Snake.Grow (Snake.Grow s) = Snake.Grow s
  /\ exists s1 : Snake.t,
       Snake.Move (Snake.Grow s) = Done s1
       /\ Snake.body s1 =
            Snake.advance (Snake.currentDirection s) (Snake.segmentSize s) front
              :: Snake.body s
       /\ (forall i : nat,
             nth_error (Snake.body s1) (S i) = nth_error (Snake.body s) i)
       /\ last (Snake.body s1) front = last (Snake.body s) front
       /\ exists s2 : Snake.t,
            Snake.Move s1 = Done s2
            /\ length (Snake.body s2) = length (Snake.body s1).
Proof.
  intros Hdir Hbody. split; [reflexivity|].
  eexists. split; [apply (Move_moving (Snake.Grow s) front rest); assumption|].
  cbn [Snake.body Snake.Grow Snake.set_growNextMove Snake.growNextMove
       Snake.currentDirection Snake.segmentSize].
  split; [reflexivity|]. split; [intros i; reflexivity|]. split.
  - rewrite Hbody. reflexivity.
  - eexists. split.
    + apply (Move_moving _
               (Snake.advance (Snake.currentDirection s) (Snake.segmentSize s) front)
               (Snake.body s)); [exact Hdir|reflexivity].
    + cbn [Snake.body Snake.growNextMove length]. f_equal.
      exact (length_pop_back_push_front _ (Snake.body s)).
Qed.

Lemma Grow_is_a_flag_witness :
  exists s1 : Snake.t,
    Snake.Move (Snake.Grow (Snake.SetDirection LEFT (Snake.Snake 400 300 20)))
      = Done s1
    /\ last (Snake.body s1) (mkPosition 360 300) = mkPosition 400 300.
Proof.
  destruct (Grow_is_a_flag (Snake.SetDirection LEFT (Snake.Snake 400 300 20))
              (mkPosition 360 300) [mkPosition 380 300; mkPosition 400 300])
    as (_ & s1 & Hmove & _ & _ & Hlast & _).
  - simpl. discriminate.
  - reflexivity.
  - exists s1. split; [exact Hmove|exact Hlast].
Defined.

Lemma connected_removelast (seg : Z) (b : list Position) :
  connected seg b -> connected seg (removelast b).
Proof.
  induction b as [|p [|q [|r b]] IH]; intros Hc; try exact I.
  - destruct Hc as [Hpq Hrest].
    change (removelast (p :: q :: r :: b)) with (p :: q :: removelast (r :: b)).
    change (removelast (q :: r :: b)) with (q :: removelast (r :: b)) in IH.
    split; [exact Hpq|]. exact (IH Hrest).
Qed.

Lemma fresh_snake_connected (startX startY segSize : Z) :
  connected segSize (Snake.body (Snake.Snake startX startY segSize)).
Proof.
  rewrite Snake_constructor_state. cbn [Snake.body connected].
  split; [|split; [|exact I]]; exists LEFT; (split; [discriminate|]);
    cbn [Snake.advance x y]; f_equal.
  unfold Int.sub, Int.mul. rewrite Int_wrap_sub_r.
  replace (Int.wrap (startX - segSize) - segSize)
    with (Int.wrap (startX - segSize) + - segSize) by lia.
  rewrite Int_wrap_add_l. f_equal. lia.
Qed.

Lemma call_keeps_connected (seg : Z) (c : SnakeCall) (s : Snake.t) :
  Snake.body s <> [] /\ Snake.segmentSize s = seg
  /\ connected seg (Snake.body s) ->
  exists s' : Snake.t,
    call c s = Done s'
    /\ (Snake.body s' <> [] /\ Snake.segmentSize s' = seg
        /\ connected seg (Snake.body s')).
Proof.
  intros (Hne & Hseg & Hconn). destruct c as [d| |]; cbn [call].
  - eexists. split; [reflexivity|].
    rewrite SetDirection_body.
    assert (Hsame : Snake.segmentSize (Snake.SetDirection d s) = Snake.segmentSize s).
    { unfold Snake.SetDirection.
      repeat match goal with
             | |- context [if ?b then _ else _] => destruct b
             end; reflexivity. }
    rewrite Hsame. repeat split; assumption.
  - eexists. split; [reflexivity|]. repeat split; assumption.
  - destruct (Direction_eqb (Snake.currentDirection s) STOPPED) eqn:Hdir.
    + apply Direction_eqb_eq in Hdir. exists s.
      rewrite Move_stopped by assumption. repeat split; assumption.
    + apply Direction_eqb_neq in Hdir.
      destruct (Snake.body s) as [|front rest] eqn:Hbody; [contradiction|].
      eexists. split; [apply (Move_moving s front rest); assumption|].
      cbn [Snake.body Snake.segmentSize]. split; [discriminate|].
      split; [exact Hseg|]. rewrite Hseg.
      assert (Hstep : one_step seg
                        (Snake.advance (Snake.currentDirection s) seg front) front)
        by (exists (Snake.currentDirection s); split; [exact Hdir|reflexivity]).
      destruct (Snake.growNextMove s).
      * rewrite Hbody. cbn [connected]. split; assumption.
      * rewrite Hbody. unfold pop_back.
        pose proof (connected_removelast seg (front :: rest) Hconn) as Hrm.
        destruct rest as [|q rest]; [exact I|].
        change (removelast (front :: q :: rest))
          with (front :: removelast (q :: rest)) in *.
        cbn [connected]. split; assumption.
Qed.

(** X2.  The snake stays in one piece: after any sequence of
    [SetDirection], [Grow] and [Move] calls on a freshly constructed snake,
    every segment of the body is exactly one move (one segment size, in a
    cardinal direction, in [int] arithmetic) from the segment behind it,
    and the segment size is still the one given to the constructor. *)
Theorem body_stays_connected
        (startX startY segSize : Z) (cs : list SnakeCall) :
  exists s : Snake.t,
    calls cs (Snake.Snake startX startY segSize) = Done s
    /\ Snake.segmentSize s = segSize
    /\ connected segSize (Snake.body s).
Proof.
  destruct (calls_invariant
              (fun s => Snake.body s <> [] /\ Snake.segmentSize s = segSize
                        /\ connected segSize (Snake.body s))
              (call_keeps_connected segSize) cs
              (Snake.Snake startX startY segSize))
    as (s & Hrun & _ & Hseg & Hconn).
  - split; [discriminate|]. split; [reflexivity|].
    apply fresh_snake_connected.
  - exists s. repeat split; assumption.
Qed.

Lemma not_opposite_self (d : Direction) : ~ opposite d d.
Proof.
  unfold opposite. intros [[-> E]|[[-> E]|[[-> E]|[-> E]]]]; discriminate.
Qed.

Lemma SetDirection_never_reverses (d : Direction) (s : Snake.t) :
  (1 < length (Snake.body s))%nat ->
  ~ opposite (Snake.currentDirection s) (Snake.lastMovedDirection s) ->
  ~ opposite (Snake.currentDirection (Snake.SetDirection d s))
             (Snake.lastMovedDirection (Snake.SetDirection d s)).
Proof.
  intros Hlen Hinv.
  destruct (Snake.is_reversal d (Snake.lastMovedDirection s)
            && ((1 <? length (Snake.body s))%nat
                && negb (Direction_eqb (Snake.lastMovedDirection s) STOPPED)))
    eqn:Htest.
  - apply rejects_test in Htest.
    now rewrite SetDirection_rejected by assumption.
  - assert (Hacc : ~ rejects d s) by (rewrite <- rejects_test; congruence).
    rewrite SetDirection_accepted by assumption.
    cbn [Snake.currentDirection Snake.lastMovedDirection].
    destruct (Direction_eqb (Snake.lastMovedDirection s) STOPPED) eqn:Hlast;
      cbn [orb]; [apply not_opposite_self|].
    destruct (Direction_eqb (Snake.currentDirection s) STOPPED
              && (length (Snake.body s) =? 1)%nat); [apply not_opposite_self|].
    intros Hopp. apply Hacc. apply Direction_eqb_neq in Hlast.
    repeat split; assumption.
Qed.

Lemma call_never_reverses (c : SnakeCall) (s : Snake.t) :
  (3 <= length (Snake.body s))%nat
  /\ ~ opposite (Snake.currentDirection s) (Snake.lastMovedDirection s) ->
  exists s' : Snake.t,
    call c s = Done s'
    /\ ((3 <= length (Snake.body s'))%nat
        /\ ~ opposite (Snake.currentDirection s') (Snake.lastMovedDirection s')).
Proof.
  intros (Hlen & Hinv).
  assert (Hne : Snake.body s <> [])
    by (destruct (Snake.body s); [simpl in Hlen; lia|discriminate]).
  destruct (call_length c s Hne) as (s' & Hc & Hbounds & _).
  exists s'. split; [exact Hc|]. split; [lia|].
  destruct c as [d| |]; cbn [call] in Hc.
  - injection Hc as <-. apply SetDirection_never_reverses; [lia|exact Hinv].
  - injection Hc as <-. exact Hinv.
  - destruct (Direction_eqb (Snake.currentDirection s) STOPPED) eqn:Hdir.
    + apply Direction_eqb_eq in Hdir. rewrite Move_stopped in Hc by assumption.
      injection Hc as <-. exact Hinv.
    + apply Direction_eqb_neq in Hdir.
      destruct (Snake.body s) as [|front rest] eqn:Hbody; [contradiction|].
      rewrite (Move_moving s front rest Hdir Hbody) in Hc.
      injection Hc as <-. apply not_opposite_self.
Qed.

(** X3.  No reversal is ever pending: after any sequence of
    [SetDirection], [Grow] and [Move] calls on a freshly constructed snake,
    [currentDirection] is not the opposite of [lastMovedDirection], however
    many direction requests were made between two moves. *)
Theorem direction_never_reverses
        (startX startY segSize : Z) (cs : list SnakeCall) :
  exists s : Snake.t,
    calls cs (Snake.Snake startX startY segSize) = Done s
    /\ ~ opposite (Snake.currentDirection s) (Snake.lastMovedDirection s).
Proof.
  destruct (calls_invariant _ call_never_reverses cs
              (Snake.Snake startX startY segSize))
    as (s & Hrun & _ & Hinv).
  - split; [simpl; lia|].
    unfold opposite. simpl. intros [[E _]|[[E _]|[[E _]|[E _]]]]; discriminate.
  - exists s. split; assumption.
Qed.

(* ================================================================= *)
(** ** Further properties of the food *)

Section FoodEdges.
Context {R : Type} `{RandomSourceLaws R}.

Lemma GenerateNewPosition_loop_ignores_pos (snakeBody : list Position)
      (hiX hiY : Z) (fuel : nat) (p1 p2 : Position) (w h seg : Z) (r : R) :
  Food.GenerateNewPosition_loop fuel snakeBody hiX hiY (Food.mk p1 w h seg r)
  = Food.GenerateNewPosition_loop fuel snakeBody hiX hiY (Food.mk p2 w h seg r).
Proof.
  destruct fuel as [|fuel]; [reflexivity|].
  cbn [Food.GenerateNewPosition_loop Food.rng].
  destruct (uniform_int 0 hiX r) as [cx r1].
  cbn [Food.set_rng Food.set_pos_x Food.rng Food.segmentSize
       Food.boardWidth Food.boardHeight Food.pos].
  destruct (uniform_int 0 hiY r1) as [cy r2].
  cbn [Food.set_rng Food.set_pos_y Food.rng Food.segmentSize
       Food.boardWidth Food.boardHeight Food.pos x y].
  reflexivity.
Qed.

(** X4.  The position the [Food] constructor leaves uninitialised is never
    read: [GenerateNewPosition] gives the same outcome whatever the stored
    position was before the call, and so [Init] and [ResetGame] do not
    depend on the indeterminate content either. *)
Theorem GenerateNewPosition_ignores_old_position
        (fuel : nat) (snakeBody : list Position)
        (p1 p2 : Position) (w h seg : Z) (r : R) (rd : Z) (g : Game.t R) :
  Food.GenerateNewPosition fuel snakeBody (Food.mk p1 w h seg r)
  = Food.GenerateNewPosition fuel snakeBody (Food.mk p2 w h seg r)
  /\ Game.Init fuel rd p1 g = Game.Init fuel rd p2 g
  /\ Game.ResetGame fuel rd p1 g = Game.ResetGame fuel rd p2 g.
Proof.
  assert (Hgen : forall b w' h' seg' r',
             Food.GenerateNewPosition fuel b (Food.mk p1 w' h' seg' r')
             = Food.GenerateNewPosition fuel b (Food.mk p2 w' h' seg' r')).
  { intros b w' h' seg' r'. unfold Food.GenerateNewPosition.
    cbn [Food.segmentSize Food.boardWidth Food.boardHeight].
    destruct (seg' =? 0); [reflexivity|].
    destruct (_ || _); [reflexivity|].
    apply GenerateNewPosition_loop_ignores_pos. }
  split; [apply Hgen|].
  unfold Game.ResetGame, Game.Init. rewrite !create_objects_result.
  unfold Food.Food. rewrite !Hgen. split; reflexivity.
Qed.

Lemma GenerateNewPosition_loop_covered (snakeBody : list Position)
      (hiX hiY seg : Z) :
  0 <= hiX -> 0 <= hiY ->
  (forall cx cy : Z,
      0 <= cx <= hiX -> 0 <= cy <= hiY ->
      In (mkPosition (Int.mul cx seg) (Int.mul cy seg)) snakeBody) ->
  forall (fuel : nat) (f : Food.t R),
    Food.segmentSize f = seg ->
    Food.GenerateNewPosition_loop fuel snakeBody hiX hiY f = OutOfFuel.
Proof.
  intros HhiX HhiY Hcover. induction fuel as [|fuel IH]; intros f Hseg;
    [reflexivity|].
  cbn [Food.GenerateNewPosition_loop].
  pose proof (uniform_int_in_range 0 hiX (Food.rng f) HhiX) as Hcx.
  destruct (uniform_int 0 hiX (Food.rng f)) as [cx r1].
  cbn [Food.set_rng Food.set_pos_x Food.rng Food.segmentSize
       Food.boardWidth Food.boardHeight Food.pos].
  pose proof (uniform_int_in_range 0 hiY r1 HhiY) as Hcy.
  destruct (uniform_int 0 hiY r1) as [cy r2].
  cbn [Food.set_rng Food.set_pos_y Food.set_pos_x Food.rng Food.segmentSize
       Food.boardWidth Food.boardHeight Food.pos x y fst] in *.
  match goal with
  | |- match find ?p ?b with _ => _ end = _ => destruct (find p b) eqn:Hfind
  end.
  - apply IH. exact Hseg.
  - exfalso.
    apply (find_coords_None
             (mkPosition (Int.mul cx (Food.segmentSize f))
                         (Int.mul cy (Food.segmentSize f)))) in Hfind.
    apply Hfind. rewrite Hseg. apply Hcover; assumption.
Qed.

(** X5.  When the snake body covers every cell of the grid,
    [GenerateNewPosition] never returns: with any amount of fuel the
    rejection loop is still running.  (Positive segment size, [int] board
    dimensions, at least one cell each way.) *)
Theorem GenerateNewPosition_full_board_loops
        (fuel : nat) (snakeBody : list Position) (f : Food.t R) :
  0 < Food.segmentSize f ->
  Int.in_range (Food.boardWidth f) ->
  Int.in_range (Food.boardHeight f) ->
  1 <= Z.quot (Food.boardWidth f) (Food.segmentSize f) ->
  1 <= Z.quot (Food.boardHeight f) (Food.segmentSize f) ->
  (forall p : Position, grid_cell f p -> In p snakeBody) ->
  Food.GenerateNewPosition fuel snakeBody f = OutOfFuel.
Proof.
  intros Hseg HW HH HqW HqH Hcover.
  destruct (quot_nonneg_bounds _ _ Hseg HqW) as [HW0 HWq].
  destruct (quot_nonneg_bounds _ _ Hseg HqH) as [HH0 HHq].
  unfold Int.in_range, Int.half_modulus in HW, HH.
  assert (HhiX : Int.sub (Int.div (Food.boardWidth f) (Food.segmentSize f)) 1
                 = Z.quot (Food.boardWidth f) (Food.segmentSize f) - 1).
  { unfold Int.sub, Int.div.
    rewrite (Int_wrap_id (Z.quot _ _)), Int_wrap_id;
      unfold Int.in_range, Int.half_modulus; nia. }
  assert (HhiY : Int.sub (Int.div (Food.boardHeight f) (Food.segmentSize f)) 1
                 = Z.quot (Food.boardHeight f) (Food.segmentSize f) - 1).
  { unfold Int.sub, Int.div.
    rewrite (Int_wrap_id (Z.quot _ _)), Int_wrap_id;
      unfold Int.in_range, Int.half_modulus; nia. }
  unfold Food.GenerateNewPosition. rewrite HhiX, HhiY.
  replace (Food.segmentSize f =? 0) with false
    by (symmetry; apply Z.eqb_neq; lia).
  replace (Z.quot (Food.boardWidth f) (Food.segmentSize f) - 1 <? 0) with false
    by (symmetry; apply Z.ltb_ge; lia).
  replace (Z.quot (Food.boardHeight f) (Food.segmentSize f) - 1 <? 0) with false
    by (symmetry; apply Z.ltb_ge; lia).
  cbn [orb].
  apply (GenerateNewPosition_loop_covered snakeBody _ _ (Food.segmentSize f));
    try lia.
  intros cx cy Hcx Hcy. apply Hcover.
  exists cx, cy. split; [exact Hcx|]. split; [exact Hcy|].
  unfold Int.mul. rewrite !Int_wrap_id; [reflexivity| |];
    unfold Int.in_range, Int.half_modulus; nia.
Qed.

(** X6.  Two inputs for which [GenerateNewPosition] has no defined result,
    whatever the body and however long it may run: a segment size of 0
    (division by zero), and a board narrower or lower than one segment
    (a distribution over the empty range 0..-1). *)
Theorem GenerateNewPosition_undefined
        (fuel : nat) (snakeBody : list Position) (f : Food.t R) :
  Food.segmentSize f = 0
  \/ (Int.in_range (Food.boardWidth f)
      /\ 0 <= Food.boardWidth f < Food.segmentSize f)
  \/ (Int.in_range (Food.boardHeight f)
      /\ 0 <= Food.boardHeight f < Food.segmentSize f) ->
  Food.GenerateNewPosition fuel snakeBody f = Undefined.
Proof.
  assert (Hsmall : forall a b, 0 <= a < b ->
             (Int.sub (Int.div a b) 1 <? 0) = true).
  { intros a b Hab. unfold Int.sub, Int.div.
    rewrite Z.quot_small by assumption. reflexivity. }
  unfold Food.GenerateNewPosition. intros [Hzero|[[_ Hw]|[_ Hh]]].
  - now rewrite Hzero.
  - destruct (Food.segmentSize f =? 0); [reflexivity|].
    now rewrite (Hsmall _ _ Hw).
  - destruct (Food.segmentSize f =? 0); [reflexivity|].
    rewrite (Hsmall _ _ Hh). now rewrite orb_true_r.
Qed.

End FoodEdges.

(** A 20x20 board holds one cell; a body on (0,0) covers it. *)
Lemma GenerateNewPosition_full_board_loops_witness :
  Food.GenerateNewPosition 1000 [mkPosition 0 0]
    (Food.Food 20 20 20 7 (mkPosition 0 0)) = OutOfFuel.
Proof.
  apply (GenerateNewPosition_full_board_loops 1000 [mkPosition 0 0]
           (Food.Food 20 20 20 7 (mkPosition 0 0))).
  - simpl. lia.
  - unfold Int.in_range, Int.half_modulus. simpl. lia.
  - unfold Int.in_range, Int.half_modulus. simpl. lia.
  - vm_compute. discriminate.
  - vm_compute. discriminate.
  - intros p (cx & cy & Hcx & Hcy & ->).
    cbn in Hcx, Hcy.
    assert (cx = 0) by lia. assert (cy = 0) by lia. subst. left. reflexivity.
Defined.

(** A food of segment size 0, and a 10-pixel-wide board for 20-pixel
    segments. *)
Lemma GenerateNewPosition_undefined_witness :
  Food.GenerateNewPosition 5 [] (Food.Food 800 600 0 7 (mkPosition 0 0))
    = Undefined
  /\ Food.GenerateNewPosition 5 [] (Food.Food 10 600 20 7 (mkPosition 0 0))
     = Undefined.
Proof.
  split.
  - apply (GenerateNewPosition_undefined 5 []
             (Food.Food 800 600 0 7 (mkPosition 0 0))).
    left. reflexivity.
  - apply (GenerateNewPosition_undefined 5 []
             (Food.Food 10 600 20 7 (mkPosition 0 0))).
    right. left. unfold Int.in_range, Int.half_modulus. simpl. lia.
Defined.

(* ================================================================= *)
(** ** Further properties of the game *)

Section GameSteering.
Context {R : Type} `{RandomSource R}.

Lemma turn_if_keeps (held : bool) (d : Direction) (s : Snake.t) :
  Snake.body (turn_if held d s) = Snake.body s
  /\ Snake.segmentSize (turn_if held d s) = Snake.segmentSize s
  /\ Snake.growNextMove (turn_if held d s) = Snake.growNextMove s.
Proof.
  destruct held; cbn [turn_if]; [|repeat split].
  rewrite SetDirection_body. unfold Snake.SetDirection.
  repeat match goal with
         | |- context [if ?b then _ else _] => destruct b
         end; repeat split.
Qed.

(** The outcome of [ProcessInput] on an active game whose snake is
    allocated. *)
Lemma ProcessInput_active_result
        (fuel : nat) (rd : Z) (indeterminate : Position)
        (g : Game.t R) (snake : Snake.t) :
  Game.State g = GAME_ACTIVE ->
  Game.PlayerSnake g = Some snake ->
  exists snake' : Snake.t,
    snake' =
      turn_if (Game.Keys g GLFW_KEY_D || Game.Keys g GLFW_KEY_RIGHT) RIGHT
        (turn_if (Game.Keys g GLFW_KEY_A || Game.Keys g GLFW_KEY_LEFT) LEFT
           (turn_if (Game.Keys g GLFW_KEY_S || Game.Keys g GLFW_KEY_DOWN) DOWN
              (turn_if (Game.Keys g GLFW_KEY_W || Game.Keys g GLFW_KEY_UP) UP
                 snake)))
    /\ Game.ProcessInput fuel rd indeterminate g
       = Done (Game.mk (Game.State g) (Game.Keys g) (Game.Width g)
                       (Game.Height g) (Some snake') (Game.GameFood g))
    /\ Snake.body snake' = Snake.body snake
    /\ Snake.segmentSize snake' = Snake.segmentSize snake
    /\ Snake.growNextMove snake' = Snake.growNextMove snake.
Proof.
  intros Hst Hsnake. eexists. split; [reflexivity|]. split.
  - destruct g as [st keys width height ps gf].
    cbn [Game.State Game.PlayerSnake Game.Keys Game.Width Game.Height
         Game.GameFood] in *.
    subst st ps. unfold Game.ProcessInput, Game.steer.
    repeat (cbn [Game.State GameState_eqb Game.Keys Game.set_PlayerSnake
                 Game.PlayerSnake Game.Width Game.Height Game.GameFood
                 deref bind turn_if];
            match goal with
            | |- context [if ?b then _ else _] => destruct b
            end).
    all: reflexivity.
  - split; [|split].
    + now rewrite !(proj1 (turn_if_keeps _ _ _)).
    + now rewrite !(proj1 (proj2 (turn_if_keeps _ _ _))).
    + now rewrite !(proj2 (proj2 (turn_if_keeps _ _ _))).
Qed.

(** X7.  In state [GAME_ACTIVE], with the snake allocated, [ProcessInput]
    returns and changes nothing but the snake's directions: the held
    direction keys are passed to [SetDirection] in the fixed order UP,
    DOWN, LEFT, RIGHT (W/S/A/D or the arrows), and state, keys, board size,
    food, body, segment size and growth flag are as before.  With no
    direction key held the game is returned unchanged. *)
Theorem ProcessInput_active_steers
        (fuel : nat) (rd : Z) (indeterminate : Position)
        (g : Game.t R) (snake : Snake.t) :
  Game.State g = GAME_ACTIVE ->
  Game.PlayerSnake g = Some snake ->
  (exists snake' : Snake.t,
      snake' =
        turn_if (Game.Keys g GLFW_KEY_D || Game.Keys g GLFW_KEY_RIGHT) RIGHT
          (turn_if (Game.Keys g GLFW_KEY_A || Game.Keys g GLFW_KEY_LEFT) LEFT
             (turn_if (Game.Keys g GLFW_KEY_S || Game.Keys g GLFW_KEY_DOWN) DOWN
                (turn_if (Game.Keys g GLFW_KEY_W || Game.Keys g GLFW_KEY_UP) UP
                   snake)))
      /\ Game.ProcessInput fuel rd indeterminate g
         = Done (Game.mk (Game.State g) (Game.Keys g) (Game.Width g)
                         (Game.Height g) (Some snake') (Game.GameFood g))
      /\ Snake.body snake' = Snake.body snake
      /\ Snake.segmentSize snake' = Snake.segmentSize snake
      /\ Snake.growNextMove snake' = Snake.growNextMove snake)
  /\ (Game.Keys g GLFW_KEY_W || Game.Keys g GLFW_KEY_UP = false ->
      Game.Keys g GLFW_KEY_S || Game.Keys g GLFW_KEY_DOWN = false ->
      Game.Keys g GLFW_KEY_A || Game.Keys g GLFW_KEY_LEFT = false ->
      Game.Keys g GLFW_KEY_D || Game.Keys g GLFW_KEY_RIGHT = false ->
      Game.ProcessInput fuel rd indeterminate g = Done g).
Proof.
  intros Hst Hps.
  pose proof (ProcessInput_active_result fuel rd indeterminate g snake Hst Hps)
    as Hresult.
  split; [exact Hresult|].
  intros Hup Hdown Hleft Hright.
  destruct Hresult as (snake' & Hsnake' & Hrun & _).
  rewrite Hup, Hdown, Hleft, Hright in Hsnake'. cbn [turn_if] in Hsnake'.
  rewrite Hrun, Hsnake'. f_equal.
  destruct g as [st keys width height ps gf].
  cbn [Game.PlayerSnake] in Hps. subst ps. reflexivity.
Qed.

(** X8.  The transitions of the state machine.  [Update] and
    [ProcessInput] never change the board size or the keys.  [Update]
    leaves the state as it is or takes [GAME_ACTIVE] to [GAME_OVER];
    [ProcessInput] leaves it as it is or, with R held, takes [GAME_OVER]
    to [GAME_ACTIVE].  In [GAME_MENU] and [GAME_WIN] both return the game
    unchanged, so these two states are never left. *)
Theorem Game_state_transitions
        (fuel : nat) (rd : Z) (indeterminate : Position) (g : Game.t R) :
  (forall g' : Game.t R,
      Game.Update fuel g = Done g' ->
      Game.Width g' = Game.Width g /\ Game.Height g' = Game.Height g
      /\ Game.Keys g' = Game.Keys g
      /\ (Game.State g' = Game.State g
          \/ (Game.State g = GAME_ACTIVE /\ Game.State g' = GAME_OVER)))
  /\ (forall g' : Game.t R,
        Game.ProcessInput fuel rd indeterminate g = Done g' ->
        Game.Width g' = Game.Width g /\ Game.Height g' = Game.Height g
        /\ Game.Keys g' = Game.Keys g
        /\ (Game.State g' = Game.State g
            \/ (Game.State g = GAME_OVER /\ Game.State g' = GAME_ACTIVE
                /\ Game.Keys g GLFW_KEY_R = true)))
  /\ (Game.State g = GAME_MENU \/ Game.State g = GAME_WIN ->
      Game.Update fuel g = Done g
      /\ Game.ProcessInput fuel rd indeterminate g = Done g).
Proof.
  split; [|split].
  - intros g' Hrun. destruct g as [st keys width height ps gf].
    unfold Game.Update in Hrun. cbn [Game.State] in Hrun.
    destruct st; cbn [GameState_eqb negb] in Hrun;
      try (injection Hrun as <-; repeat split; left; reflexivity).
    cbn [Game.PlayerSnake] in Hrun. destruct ps as [snake|];
      cbn [deref bind] in Hrun; [|discriminate].
    destruct (Snake.Move snake) as [snake1| |]; cbn [bind] in Hrun;
      try discriminate.
    cbn [Game.set_PlayerSnake Game.GameFood Game.State Game.Keys Game.Width
         Game.Height] in Hrun.
    destruct gf as [food|]; cbn [deref bind] in Hrun; [|discriminate].
    destruct (_ && _) in Hrun.
    + destruct (Food.GenerateNewPosition _ _ _) as [food'| |];
        cbn [bind] in Hrun; try discriminate.
      cbn [Game.set_GameFood Game.set_PlayerSnake Game.PlayerSnake deref bind
           Game.State Game.Keys Game.Width Game.Height Game.GameFood] in Hrun.
      destruct (Snake.CheckSelfCollision _), (Game.hits_wall _ _ _);
        injection Hrun as <-; cbn; repeat split; auto.
    + cbn [Game.set_GameFood Game.set_PlayerSnake Game.PlayerSnake deref bind
           Game.State Game.Keys Game.Width Game.Height Game.GameFood] in Hrun.
      destruct (Snake.CheckSelfCollision _), (Game.hits_wall _ _ _);
        injection Hrun as <-; cbn; repeat split; auto.
  - intros g' Hrun. destruct (Game.State g) eqn:Hst.
    + destruct (Game.PlayerSnake g) as [snake|] eqn:Hps.
      * destruct (ProcessInput_active_result fuel rd indeterminate g snake Hst Hps)
          as (snake' & _ & Hrun' & _).
        rewrite Hrun' in Hrun. injection Hrun as <-.
        cbn. repeat split. left. exact Hst.
      * destruct g as [st keys width height ps gf].
        cbn [Game.State Game.PlayerSnake] in Hst, Hps. subst st ps.
        unfold Game.ProcessInput, Game.steer in Hrun.
        cbn [Game.State GameState_eqb Game.Keys Game.PlayerSnake] in Hrun.
        repeat match type of Hrun with
               | context [if ?b then _ else _] =>
                   destruct b; cbn [deref bind Game.Keys Game.PlayerSnake] in Hrun
               end; try discriminate.
        injection Hrun as <-. cbn. repeat split. left. reflexivity.
    + unfold Game.ProcessInput in Hrun. rewrite Hst in Hrun.
      injection Hrun as <-. rewrite Hst. repeat split. left. reflexivity.
    + unfold Game.ProcessInput in Hrun. rewrite Hst in Hrun.
      injection Hrun as <-. rewrite Hst. repeat split. left. reflexivity.
    + rewrite ProcessInput_over in Hrun by assumption.
      destruct (Game.Keys g GLFW_KEY_R) eqn:Hkey.
      * unfold Game.ResetGame in Hrun. rewrite create_objects_result in Hrun.
        destruct (Food.GenerateNewPosition _ _ _); cbn [bind] in Hrun;
          try discriminate.
        injection Hrun as <-. cbn. repeat split. right. repeat split.
      * injection Hrun as <-. rewrite Hst. repeat split. left. reflexivity.
  - intros Hst. split.
    + apply Update_inactive. destruct Hst as [-> | ->]; discriminate.
    + unfold Game.ProcessInput. destruct Hst as [-> | ->]; reflexivity.
Qed.

End GameSteering.

(** The fresh 800x600 game with only the left arrow held. *)
Lemma ProcessInput_active_steers_witness :
  Game.ProcessInput 5 7 (mkPosition 0 0)
    (Game.mk GAME_ACTIVE (fun k => k =? GLFW_KEY_LEFT) 800 600
             (Some (Snake.Snake 400 300 20))
             (Some (Food.mk (mkPosition 140 120) 800 600 20 1)))
  = Done (Game.mk GAME_ACTIVE (fun k => k =? GLFW_KEY_LEFT) 800 600
                  (Some (Snake.SetDirection LEFT (Snake.Snake 400 300 20)))
                  (Some (Food.mk (mkPosition 140 120) 800 600 20 1))).
Proof.
  destruct (ProcessInput_active_steers 5 7 (mkPosition 0 0)
              (Game.mk GAME_ACTIVE (fun k => k =? GLFW_KEY_LEFT) 800 600
                       (Some (Snake.Snake 400 300 20))
                       (Some (Food.mk (mkPosition 140 120) 800 600 20 1)))
              (Snake.Snake 400 300 20))
    as ((snake' & Hsnake' & Hrun & _) & _); [reflexivity|reflexivity|].
  rewrite Hrun, Hsnake'. reflexivity.
Defined.

Lemma Game_state_transitions_witness :
  Game.Update 5
    (Game.mk GAME_MENU (fun _ => true) 800 600
             (Some (Snake.Snake 400 300 20))
             (Some (Food.mk (mkPosition 140 120) 800 600 20 1)))
  = Done (Game.mk GAME_MENU (fun _ => true) 800 600
                  (Some (Snake.Snake 400 300 20))
                  (Some (Food.mk (mkPosition 140 120) 800 600 20 1))).
Proof.
  destruct (Game_state_transitions 5 7 (mkPosition 0 0)
              (Game.mk GAME_MENU (fun _ => true) 800 600
                       (Some (Snake.Snake 400 300 20))
                       (Some (Food.mk (mkPosition 140 120) 800 600 20 1))))
    as (_ & _ & Hidle).
  destruct Hidle as [Hupd _]; [left; reflexivity|exact Hupd].
Defined.

(* ================================================================= *)
(** ** The loop of main never leaves the defined behaviour *)

Section FoodDefined.
Context {R : Type} `{RandomSource R}.

Lemma GenerateNewPosition_loop_outcome (snakeBody : list Position)
      (hiX hiY : Z) :
  forall (fuel : nat) (f : Food.t R),
    Food.GenerateNewPosition_loop fuel snakeBody hiX hiY f <> Undefined
    /\ forall f' : Food.t R,
         Food.GenerateNewPosition_loop fuel snakeBody hiX hiY f = Done f' ->
         Food.boardWidth f' = Food.boardWidth f
         /\ Food.boardHeight f' = Food.boardHeight f
         /\ Food.segmentSize f' = Food.segmentSize f.
Proof.
  induction fuel as [|fuel IH]; intros f.
  - split; [discriminate|]. intros f' Hrun. discriminate.
  - cbn [Food.GenerateNewPosition_loop].
    destruct (uniform_int 0 hiX (Food.rng f)) as [cx r1].
    destruct (uniform_int 0 hiY _) as [cy r2].
    match goal with
    | |- context [match find ?p ?b with _ => _ end] => destruct (find p b)
    end.
    + match goal with
      | |- context [Food.GenerateNewPosition_loop fuel _ _ _ ?f2] =>
          destruct (IH f2) as [Hdef Hfields]
      end.
      split; [exact Hdef|]. intros f' Hrun. exact (Hfields f' Hrun).
    + split; [discriminate|]. intros f' Hrun. injection Hrun as <-.
      repeat split.
Qed.

(** The call is defined exactly on a non-zero segment size and a grid of
    at least one cell each way, and it only writes [pos] and [rng]. *)
Lemma GenerateNewPosition_outcome (fuel : nat) (snakeBody : list Position)
      (f : Food.t R) :
  (Food.segmentSize f <> 0 ->
   0 <= Int.sub (Int.div (Food.boardWidth f) (Food.segmentSize f)) 1 ->
   0 <= Int.sub (Int.div (Food.boardHeight f) (Food.segmentSize f)) 1 ->
   Food.GenerateNewPosition fuel snakeBody f <> Undefined)
  /\ forall f' : Food.t R,
       Food.GenerateNewPosition fuel snakeBody f = Done f' ->
       Food.boardWidth f' = Food.boardWidth f
       /\ Food.boardHeight f' = Food.boardHeight f
       /\ Food.segmentSize f' = Food.segmentSize f
       /\ Food.segmentSize f <> 0
       /\ 0 <= Int.sub (Int.div (Food.boardWidth f) (Food.segmentSize f)) 1
       /\ 0 <= Int.sub (Int.div (Food.boardHeight f) (Food.segmentSize f)) 1.
Proof.
  unfold Food.GenerateNewPosition. split.
  - intros Hseg HhiX HhiY. apply Z.eqb_neq in Hseg. rewrite Hseg.
    apply Z.ltb_ge in HhiX, HhiY. rewrite HhiX, HhiY. cbn [orb].
    apply GenerateNewPosition_loop_outcome.
  - intros f' Hrun.
    destruct (Food.segmentSize f =? 0) eqn:Hseg; [discriminate|].
    destruct (Int.sub (Int.div (Food.boardWidth f) (Food.segmentSize f)) 1 <? 0)
      eqn:HhiX; [discriminate|].
    destruct (Int.sub (Int.div (Food.boardHeight f) (Food.segmentSize f)) 1 <? 0)
      eqn:HhiY; [discriminate|].
    cbn [orb] in Hrun.
    apply GenerateNewPosition_loop_outcome in Hrun.
    apply Z.eqb_neq in Hseg. apply Z.ltb_ge in HhiX, HhiY.
    destruct Hrun as (Hw & Hh & Hs). repeat split; assumption.
Qed.

End FoodDefined.

Section GameSafety.
Context {R : Type} `{RandomSource R}.

Lemma create_objects_playable (fuel : nat) (rd : Z) (indeterminate : Position)
      (g g' : Game.t R) :
  Game.create_objects fuel rd indeterminate g = Done g' ->
  playable g'
  /\ Game.Width g' = Game.Width g /\ Game.Height g' = Game.Height g.
Proof.
  rewrite create_objects_result. intros Hrun.
  destruct (Food.GenerateNewPosition _ _ _) as [food'| |] eqn:Hgen;
    cbn [bind] in Hrun; try discriminate.
  injection Hrun as <-.
  apply GenerateNewPosition_outcome in Hgen.
  cbn [Food.Food Food.boardWidth Food.boardHeight Food.segmentSize] in Hgen.
  destruct Hgen as (Hw & Hh & Hs & _ & HhiX & HhiY).
  split; [|split; reflexivity].
  eexists. exists food'.
  cbn [Game.PlayerSnake Game.GameFood Game.Width Game.Height].
  repeat split; try reflexivity; try assumption; try (simpl; lia).
Qed.

Lemma create_objects_defined (fuel : nat) (rd : Z) (indeterminate : Position)
      (g : Game.t R) :
  0 <= Int.sub (Int.div (Int.wrap (Game.Width g)) 20) 1 ->
  0 <= Int.sub (Int.div (Int.wrap (Game.Height g)) 20) 1 ->
  Game.create_objects fuel rd indeterminate g <> Undefined.
Proof.
  intros HhiX HhiY. rewrite create_objects_result.
  destruct (Food.GenerateNewPosition _ _ _) as [food'| |] eqn:Hgen;
    cbn [bind]; try discriminate.
  exfalso. revert Hgen. apply GenerateNewPosition_outcome.
  - discriminate.
  - exact HhiX.
  - exact HhiY.
Qed.

Lemma playable_ProcessInput (fuel : nat) (rd : Z) (indeterminate : Position)
      (g : Game.t R) :
  playable g ->
  Game.ProcessInput fuel rd indeterminate g <> Undefined
  /\ forall g' : Game.t R,
       Game.ProcessInput fuel rd indeterminate g = Done g' -> playable g'.
Proof.
  intros Hplay.
  pose proof Hplay as (snake & food & Hps & Hgf & Hlen & Hseg & Hw & Hh & Hfs
                       & HhiX & HhiY).
  destruct (Game.State g) eqn:Hst.
  - destruct (ProcessInput_active_result fuel rd indeterminate g snake Hst Hps)
      as (snake' & _ & Hrun & Hbody & Hseg' & _).
    rewrite Hrun. split; [discriminate|].
    intros g' Hg'. injection Hg' as <-.
    exists snake', food.
    cbn [Game.PlayerSnake Game.GameFood Game.Width Game.Height].
    rewrite Hbody, Hseg'. repeat split; assumption.
  - unfold Game.ProcessInput. rewrite Hst. cbn [GameState_eqb].
    split; [discriminate|]. intros g' Hg'. now injection Hg' as <-.
  - unfold Game.ProcessInput. rewrite Hst. cbn [GameState_eqb].
    split; [discriminate|]. intros g' Hg'. now injection Hg' as <-.
  - rewrite ProcessInput_over by assumption.
    destruct (Game.Keys g GLFW_KEY_R).
    + unfold Game.ResetGame. split.
      * apply create_objects_defined; assumption.
      * intros g' Hrun. now apply create_objects_playable in Hrun.
    + split; [discriminate|]. intros g' Hg'. now injection Hg' as <-.
Qed.

Lemma Move_outcome (snake : Snake.t) :
  Snake.body snake <> [] ->
  exists snake1 : Snake.t,
    Snake.Move snake = Done snake1
    /\ (length (Snake.body snake) <= length (Snake.body snake1))%nat
    /\ Snake.segmentSize snake1 = Snake.segmentSize snake.
Proof.
  intros Hne.
  destruct (Direction_eqb (Snake.currentDirection snake) STOPPED) eqn:Hdir.
  - apply Direction_eqb_eq in Hdir. exists snake.
    rewrite Move_stopped by assumption. repeat split. lia.
  - apply Direction_eqb_neq in Hdir.
    destruct (Snake.body snake) as [|front rest] eqn:Hbody; [contradiction|].
    eexists. split; [apply (Move_moving snake front rest); assumption|].
    cbn [Snake.body Snake.segmentSize length]. split; [|reflexivity].
    pose proof (length_pop_back_push_front front rest) as Hlen.
    unfold push_front in Hlen.
    destruct (Snake.growNextMove snake); rewrite ?Hbody, ?Hlen; simpl; lia.
Qed.

Lemma playable_Update (fuel : nat) (g : Game.t R) :
  playable g ->
  Game.Update fuel g <> Undefined
  /\ forall g' : Game.t R, Game.Update fuel g = Done g' -> playable g'.
Proof.
  intros Hplay.
  pose proof Hplay as (snake & food & Hps & Hgf & Hlen & Hseg & Hw & Hh & Hfs
                       & HhiX & HhiY).
  destruct (GameState_eqb (Game.State g) GAME_ACTIVE) eqn:Hst.
  2:{ apply GameState_eqb_neq in Hst. rewrite Update_inactive by assumption.
      split; [discriminate|]. intros g' Hg'. now injection Hg' as <-. }
  destruct g as [st keys width height ps gf].
  cbn [Game.State Game.PlayerSnake Game.GameFood Game.Width Game.Height] in *.
  subst ps gf. unfold Game.Update. cbn [Game.State]. rewrite Hst.
  cbn [negb Game.PlayerSnake deref bind].
  destruct (Move_outcome snake) as (snake1 & Hmove & Hlen1 & Hseg1).
  { destruct (Snake.body snake); [simpl in Hlen; lia|discriminate]. }
  rewrite Hmove.
  cbn [bind Game.set_PlayerSnake Game.GameFood Game.State Game.Keys
       Game.Width Game.Height deref].
  assert (Hfinal : forall (st' : GameState) (snake' : Snake.t) (food' : Food.t R),
             Snake.body snake' = Snake.body snake1 ->
             Snake.segmentSize snake' = Snake.segmentSize snake1 ->
             Food.boardWidth food' = Food.boardWidth food ->
             Food.boardHeight food' = Food.boardHeight food ->
             Food.segmentSize food' = Food.segmentSize food ->
             playable (Game.mk st' keys width height (Some snake') (Some food'))).
  { intros st' snake' food' Hb Hs Hfw Hfh Hfseg. exists snake', food'.
    cbn [Game.PlayerSnake Game.GameFood Game.Width Game.Height].
    rewrite Hb, Hs, Hfw, Hfh, Hfseg, Hseg1.
    repeat split; try assumption. lia. }
  destruct (_ && _).
  - change (Snake.GetBody (Snake.Grow snake1)) with (Snake.body snake1).
    destruct (GenerateNewPosition_outcome fuel (Snake.body snake1) food)
      as [Hdef Hfields].
    destruct (Food.GenerateNewPosition fuel (Snake.body snake1) food)
      as [food'| |] eqn:Hgen; cbn [bind].
    + destruct (Hfields food' eq_refl) as (Hfw & Hfh & Hfseg & _).
      cbn [Game.set_GameFood Game.set_PlayerSnake Game.PlayerSnake deref bind
           Game.State Game.Keys Game.Width Game.Height Game.GameFood].
      split; [discriminate|]. intros g' Hg'. injection Hg' as <-.
      destruct (Snake.CheckSelfCollision _), (Game.hits_wall _ _ _);
        cbn [Game.set_State Game.State Game.Keys Game.Width Game.Height
             Game.PlayerSnake Game.GameFood];
        apply Hfinal; (reflexivity || assumption).
    + exfalso.
      apply Hdef; [rewrite Hfs; discriminate
                  |rewrite Hw, Hfs; exact HhiX
                  |rewrite Hh, Hfs; exact HhiY
                  |reflexivity].
    + split; [discriminate|]. intros g' Hg'. discriminate.
  - cbn [Game.set_GameFood Game.set_PlayerSnake Game.PlayerSnake deref bind
         Game.State Game.Keys Game.Width Game.Height Game.GameFood].
    split; [discriminate|]. intros g' Hg'. injection Hg' as <-.
    destruct (Snake.CheckSelfCollision _), (Game.hits_wall _ _ _);
      cbn [Game.set_State Game.State Game.Keys Game.Width Game.Height
           Game.PlayerSnake Game.GameFood];
      apply Hfinal; reflexivity.
Qed.

Lemma key_callback_game (key action : Z) (m : Main.t R) :
  Game.State (Main.snakeGame (Main.key_callback key action m))
    = Game.State (Main.snakeGame m)
  /\ Game.Width (Main.snakeGame (Main.key_callback key action m))
     = Game.Width (Main.snakeGame m)
  /\ Game.Height (Main.snakeGame (Main.key_callback key action m))
     = Game.Height (Main.snakeGame m)
  /\ Game.PlayerSnake (Main.snakeGame (Main.key_callback key action m))
     = Game.PlayerSnake (Main.snakeGame m)
  /\ Game.GameFood (Main.snakeGame (Main.key_callback key action m))
     = Game.GameFood (Main.snakeGame m).
Proof.
  unfold Main.key_callback.
  repeat match goal with
         | |- context [if ?b then _ else _] => destruct b
         end; repeat split.
Qed.

Lemma glfwPollEvents_game (evs : list (Z * Z)) :
  forall m : Main.t R,
    Game.State (Main.snakeGame (Main.glfwPollEvents evs m))
      = Game.State (Main.snakeGame m)
    /\ Game.Width (Main.snakeGame (Main.glfwPollEvents evs m))
       = Game.Width (Main.snakeGame m)
    /\ Game.Height (Main.snakeGame (Main.glfwPollEvents evs m))
       = Game.Height (Main.snakeGame m)
    /\ Game.PlayerSnake (Main.snakeGame (Main.glfwPollEvents evs m))
       = Game.PlayerSnake (Main.snakeGame m)
    /\ Game.GameFood (Main.snakeGame (Main.glfwPollEvents evs m))
       = Game.GameFood (Main.snakeGame m).
Proof.
  unfold Main.glfwPollEvents.
  induction evs as [|ev evs IH]; intros m; [repeat split|].
  cbn [fold_left].
  destruct (IH (Main.key_callback (fst ev) (snd ev) m)) as (-> & -> & -> & -> & ->).
  apply key_callback_game.
Qed.

Lemma playable_glfwPollEvents (evs : list (Z * Z)) (m : Main.t R) :
  playable (Main.snakeGame m) ->
  playable (Main.snakeGame (Main.glfwPollEvents evs m)).
Proof.
  intros (snake & food & Hplay). exists snake, food.
  destruct (glfwPollEvents_game evs m) as (_ & -> & -> & -> & ->).
  exact Hplay.
Qed.

End GameSafety.

Section MainLoop.
Context {R : Type} `{RandomSource R} {F : Type} `{FloatCast F}.

Lemma Render_allocated (g : Game.t R) (snake : Snake.t) (food : Food.t R) :
  Game.PlayerSnake g = Some snake ->
  Game.GameFood g = Some food ->
  exists draws : list (DrawCall F),
    GameRender.Render g = Done draws
    /\ length draws =
       if GameState_eqb (Game.State g) GAME_ACTIVE
          || GameState_eqb (Game.State g) GAME_OVER
       then S (length (Snake.body snake)) else 0%nat.
Proof.
  intros Hps Hgf. unfold GameRender.Render. rewrite Hps, Hgf.
  destruct (_ || _); cbn [deref bind].
  - eexists. split; [reflexivity|].
    rewrite length_app, length_map. unfold Snake.GetBody. simpl. lia.
  - exists []. split; reflexivity.
Qed.

Lemma loop_body_playable (i : Main.FrameInput) (m : Main.t R) :
  playable (Main.snakeGame m) ->
  Main.loop_body (F := F) i m <> Undefined
  /\ forall m' : Main.t R,
       Main.loop_body (F := F) i m = Done m' ->
       playable (Main.snakeGame m')
       /\ Main.shouldClose m'
          = Main.shouldClose (Main.glfwPollEvents (Main.events i) m).
Proof.
  intros Hplay. unfold Main.loop_body.
  apply (playable_glfwPollEvents (Main.events i)) in Hplay.
  destruct (playable_ProcessInput (Main.fuel i) (Main.rd i)
              (Main.indeterminate i) _ Hplay) as [Hdef1 Hplay1].
  destruct (Game.ProcessInput _ _ _ _) as [g1| |]; cbn [bind];
    [|contradiction|split; [discriminate|intros m' Hm'; discriminate]].
  specialize (Hplay1 g1 eq_refl).
  destruct (playable_Update (Main.fuel i) g1 Hplay1) as [Hdef2 Hplay2].
  destruct (Game.Update _ g1) as [g2| |]; cbn [bind];
    [|contradiction|split; [discriminate|intros m' Hm'; discriminate]].
  specialize (Hplay2 g2 eq_refl).
  pose proof Hplay2 as (snake & food & Hps & Hgf & _).
  destruct (Render_allocated g2 snake food Hps Hgf) as (draws & Hdraw & _).
  rewrite Hdraw. cbn [bind]. split; [discriminate|].
  intros m' Hm'. injection Hm' as <-. split; [exact Hplay2|reflexivity].
Qed.

Lemma main_loop_playable (inputs : list Main.FrameInput) :
  forall m : Main.t R,
    playable (Main.snakeGame m) ->
    Main.main_loop (F := F) inputs m <> Undefined
    /\ forall m' : Main.t R,
         Main.main_loop (F := F) inputs m = Done m' ->
         playable (Main.snakeGame m').
Proof.
  induction inputs as [|i rest IH]; intros m Hplay.
  - cbn [Main.main_loop]. destruct (Main.shouldClose m);
      (split; [discriminate|intros m' Hm'; now injection Hm' as <-]).
  - cbn [Main.main_loop]. destruct (Main.shouldClose m).
    + split; [discriminate|intros m' Hm'; now injection Hm' as <-].
    + destruct (loop_body_playable i m Hplay) as [Hdef Hnext].
      destruct (Main.loop_body i m) as [m1| |]; cbn [bind];
        [|contradiction|split; [discriminate|intros m' Hm'; discriminate]].
      destruct (Hnext m1 eq_refl) as [Hplay1 _].
      exact (IH m1 Hplay1).
Qed.

(** X9.  Once [Init] has returned, the loop of [main] never runs into
    undefined behaviour, whatever keys are pressed and however long it
    runs: no null pointer is dereferenced, no front of an empty body is
    read, no division by zero and no empty distribution occurs in
    [ProcessInput], [Update], [ResetGame] or [Render].  After every frame
    both objects are allocated, the snake has at least 3 segments of size
    20 and the food is built for the board. *)
Theorem main_loop_defined_after_Init
        (fuel : nat) (rd : Z) (indeterminate : Position) (g0 g : Game.t R) :
  Game.Init fuel rd indeterminate g0 = Done g ->
  playable g
  /\ forall (inputs : list Main.FrameInput) (closing : bool),
       Main.main_loop (F := F) inputs (Main.mk closing g) <> Undefined
       /\ forall m' : Main.t R,
            Main.main_loop (F := F) inputs (Main.mk closing g) = Done m' ->
            playable (Main.snakeGame m').
Proof.
  intros Hinit. unfold Game.Init in Hinit.
  apply create_objects_playable in Hinit. destruct Hinit as [Hplay _].
  split; [exact Hplay|]. intros inputs closing.
  exact (main_loop_playable inputs (Main.mk closing g) Hplay).
Qed.

Lemma key_callback_shouldClose (key action : Z) (m : Main.t R) :
  Main.shouldClose (Main.key_callback key action m)
  = Main.shouldClose m || ((key =? GLFW_KEY_ESCAPE) && (action =? GLFW_PRESS)).
Proof.
  unfold Main.key_callback.
  destruct ((key =? GLFW_KEY_ESCAPE) && (action =? GLFW_PRESS));
    repeat match goal with
           | |- context [if ?b then _ else _] => destruct b
           end; cbn [Main.shouldClose];
    rewrite ?orb_true_r, ?orb_false_r; reflexivity.
Qed.

Lemma key_callback_keys (key action : Z) (m : Main.t R) (k : Z) :
  Game.Keys (Main.snakeGame (Main.key_callback key action m)) k
  = if (k =? key) && ((0 <=? key) && (key <? 1024))
       && ((action =? GLFW_PRESS) || (action =? GLFW_RELEASE))
    then action =? GLFW_PRESS
    else Game.Keys (Main.snakeGame m) k.
Proof.
  unfold Main.key_callback.
  set (m1 := if (key =? GLFW_KEY_ESCAPE) && (action =? GLFW_PRESS)
             then Main.mk true (Main.snakeGame m) else m).
  assert (Hm1 : Main.snakeGame m1 = Main.snakeGame m)
    by (subst m1; destruct (_ && _); reflexivity).
  destruct ((0 <=? key) && (key <? 1024));
    destruct (action =? GLFW_PRESS);
    destruct (action =? GLFW_RELEASE);
    cbn [Main.snakeGame Main.set_key Game.Keys andb orb];
    rewrite ?Hm1, ?andb_false_r, ?andb_true_r; reflexivity.
Qed.

Lemma glfwPollEvents_app (evs1 evs2 : list (Z * Z)) (m : Main.t R) :
  Main.glfwPollEvents (evs1 ++ evs2) m
  = Main.glfwPollEvents evs2 (Main.glfwPollEvents evs1 m).
Proof. unfold Main.glfwPollEvents. apply fold_left_app. Qed.

Lemma glfwPollEvents_shouldClose (evs : list (Z * Z)) :
  forall m : Main.t R,
    Main.shouldClose (Main.glfwPollEvents evs m)
    = Main.shouldClose m
      || existsb (fun ev => (fst ev =? GLFW_KEY_ESCAPE) && (snd ev =? GLFW_PRESS))
                 evs.
Proof.
  induction evs as [|ev evs IH]; intros m.
  - cbn. now rewrite orb_false_r.
  - change (Main.glfwPollEvents (ev :: evs) m)
      with (Main.glfwPollEvents evs (Main.key_callback (fst ev) (snd ev) m)).
    rewrite IH, key_callback_shouldClose. cbn [existsb].
    now rewrite orb_assoc.
Qed.

Lemma not_press_or_release (action : Z) :
  ~ press_or_release action ->
  (action =? GLFW_PRESS) || (action =? GLFW_RELEASE) = false.
Proof.
  intros Hnot. apply orb_false_iff. split; apply Z.eqb_neq; intros E;
    apply Hnot; [left|right]; exact E.
Qed.

(** Events that are not a press or a release of key [k] inside the array
    leave [Keys[k]] as it is. *)
Lemma glfwPollEvents_inert (k : Z) (evs : list (Z * Z)) :
  forall m : Main.t R,
    (forall ev, In ev evs ->
       fst ev <> k \/ fst ev < 0 \/ 1024 <= fst ev
       \/ ~ press_or_release (snd ev)) ->
    Game.Keys (Main.snakeGame (Main.glfwPollEvents evs m)) k
    = Game.Keys (Main.snakeGame m) k.
Proof.
  induction evs as [|ev evs IH]; intros m Hevs; [reflexivity|].
  change (Main.glfwPollEvents (ev :: evs) m)
    with (Main.glfwPollEvents evs (Main.key_callback (fst ev) (snd ev) m)).
  rewrite IH by (intros ev' Hin; apply Hevs; now right).
  rewrite key_callback_keys.
  destruct (Hevs ev (or_introl eq_refl)) as [Hne|[Hlow|[Hhigh|Hother]]].
  - apply Z.eqb_neq in Hne. rewrite Z.eqb_sym in Hne. now rewrite Hne.
  - apply Z.leb_gt in Hlow. rewrite Hlow. now rewrite andb_false_r.
  - apply Z.ltb_ge in Hhigh. rewrite Hhigh. now rewrite !andb_false_r.
  - rewrite (not_press_or_release _ Hother). now rewrite andb_false_r.
Qed.

(** X10.  What a frame's key events do.  They never touch the state, the
    board size, the snake or the food.  An event that names another key,
    or a key outside 0..1023 (GLFW_KEY_UNKNOWN is -1), or whose action is
    neither press nor release (GLFW_REPEAT), leaves the stored key as it
    was.  For a key inside the range the last press or release wins:
    whatever came before it, and whatever events of the other kinds come
    after it, the key reads pressed after a press and released after a
    release.  The should-close flag is set exactly by a press of Escape
    and is never cleared. *)
Theorem glfwPollEvents_spec (evs : list (Z * Z)) (m : Main.t R) :
  (Game.State (Main.snakeGame (Main.glfwPollEvents evs m))
     = Game.State (Main.snakeGame m)
   /\ Game.Width (Main.snakeGame (Main.glfwPollEvents evs m))
      = Game.Width (Main.snakeGame m)
   /\ Game.Height (Main.snakeGame (Main.glfwPollEvents evs m))
      = Game.Height (Main.snakeGame m)
   /\ Game.PlayerSnake (Main.snakeGame (Main.glfwPollEvents evs m))
      = Game.PlayerSnake (Main.snakeGame m)
   /\ Game.GameFood (Main.snakeGame (Main.glfwPollEvents evs m))
      = Game.GameFood (Main.snakeGame m))
  /\ (forall k : Z,
        (forall ev, In ev evs ->
           fst ev <> k \/ fst ev < 0 \/ 1024 <= fst ev
           \/ ~ press_or_release (snd ev)) ->
        Game.Keys (Main.snakeGame (Main.glfwPollEvents evs m)) k
        = Game.Keys (Main.snakeGame m) k)
  /\ (forall (key action : Z) (later : list (Z * Z)),
        0 <= key < 1024 ->
        press_or_release action ->
        (forall ev, In ev later ->
           fst ev <> key \/ ~ press_or_release (snd ev)) ->
        Game.Keys
          (Main.snakeGame
             (Main.glfwPollEvents (evs ++ (key, action) :: later) m)) key
        = (action =? GLFW_PRESS))
  /\ Main.shouldClose (Main.glfwPollEvents evs m)
     = Main.shouldClose m
       || existsb (fun ev => (fst ev =? GLFW_KEY_ESCAPE) && (snd ev =? GLFW_PRESS))
                  evs.
Proof.
  split; [apply glfwPollEvents_game|].
  split; [intros k; apply glfwPollEvents_inert|].
  split; [|apply glfwPollEvents_shouldClose].
  intros key action later Hkey Haction Hlater.
  change ((key, action) :: later) with ([(key, action)] ++ later).
  rewrite !glfwPollEvents_app.
  rewrite glfwPollEvents_inert.
  2:{ intros ev Hin. destruct (Hlater ev Hin) as [Hne|Hother].
      - left. exact Hne.
      - right. right. right. exact Hother. }
  change (Main.glfwPollEvents [(key, action)] ?m0)
    with (Main.key_callback key action m0).
  rewrite key_callback_keys, Z.eqb_refl.
  replace ((0 <=? key) && (key <? 1024)) with true
    by (symmetry; apply andb_true_iff; split;
        [apply Z.leb_le|apply Z.ltb_lt]; lia).
  destruct Haction as [-> | ->]; reflexivity.
Qed.

(** X11.  Escape ends the loop after the frame in which it is pressed:
    that frame still runs [ProcessInput], [Update] and [Render], and no
    later frame runs, whatever it would have held.  Once the flag is set
    the loop returns the state as it is. *)
Theorem escape_ends_the_loop
        (i : Main.FrameInput) (rest : list Main.FrameInput) (m : Main.t R) :
  (Main.shouldClose m = true ->
   Main.main_loop (F := F) (i :: rest) m = Done m)
  /\ (Main.shouldClose m = false ->
      existsb (fun ev => (fst ev =? GLFW_KEY_ESCAPE) && (snd ev =? GLFW_PRESS))
              (Main.events i) = true ->
      Main.main_loop (F := F) (i :: rest) m = Main.loop_body (F := F) i m).
Proof.
  split.
  - intros Hclose. cbn [Main.main_loop]. now rewrite Hclose.
  - intros Hopen Hesc. cbn [Main.main_loop]. rewrite Hopen.
    unfold Main.loop_body.
    destruct (Game.ProcessInput _ _ _ _) as [g1| |]; cbn [bind];
      try reflexivity.
    destruct (Game.Update _ g1) as [g2| |]; cbn [bind]; try reflexivity.
    destruct (GameRender.Render g2) as [draws| |]; cbn [bind];
      try reflexivity.
    assert (Hflag : Main.shouldClose (Main.glfwPollEvents (Main.events i) m)
                    = true)
      by (rewrite glfwPollEvents_shouldClose, Hesc; apply orb_true_r).
    destruct rest; cbn [Main.main_loop Main.shouldClose]; now rewrite Hflag.
Qed.

End MainLoop.

(* ================================================================= *)
(** ** Before Init, and the first move of a fresh game *)

Section BeforeInit.
Context {R : Type} `{RandomSource R} {F : Type} `{FloatCast F}.

(** X12.  The constructor leaves the game in [GAME_ACTIVE] with both
    pointers null, so [Init] has to come first: on a constructed game
    [Update] and [Render] have no defined result, whatever the board size.
    [ProcessInput] returns it unchanged while no key is held, and has no
    defined result as soon as one direction key has been pressed. *)
Theorem calls_before_Init_undefined
        (width height : Z) (fuel : nat) (rd : Z) (indeterminate : Position) :
  Game.Update fuel (Game.Game (R := R) width height) = Undefined
  /\ GameRender.Render (F := F) (Game.Game (R := R) width height) = Undefined
  /\ Game.ProcessInput fuel rd indeterminate (Game.Game (R := R) width height)
     = Done (Game.Game width height)
  /\ forall key : Z,
       In key [GLFW_KEY_W; GLFW_KEY_S; GLFW_KEY_A; GLFW_KEY_D;
               GLFW_KEY_UP; GLFW_KEY_DOWN; GLFW_KEY_LEFT; GLFW_KEY_RIGHT] ->
       Game.ProcessInput fuel rd indeterminate
         (Main.snakeGame
            (Main.key_callback key GLFW_PRESS
               (Main.mk false (Game.Game (R := R) width height))))
       = Undefined.
Proof.
  split; [reflexivity|]. split; [reflexivity|]. split; [reflexivity|].
  intros key Hkey. cbn [In] in Hkey.
  repeat (destruct Hkey as [<-|Hkey]; [reflexivity|]).
  contradiction.
Qed.

End BeforeInit.

Section FirstMove.
Context {R : Type} `{RandomSource R}.

Lemma opposite_RIGHT (last : Direction) : opposite RIGHT last -> last = LEFT.
Proof.
  unfold opposite. intros [[E _]|[[E _]|[[E _]|[_ E]]]];
    try discriminate; exact E.
Qed.

Lemma SetDirection_RIGHT_taken (s : Snake.t) :
  Snake.lastMovedDirection s <> LEFT ->
  Snake.currentDirection (Snake.SetDirection RIGHT s) = RIGHT.
Proof.
  intros Hlast. rewrite SetDirection_accepted; [reflexivity|].
  intros (Hopp & _). apply opposite_RIGHT in Hopp. contradiction.
Qed.

Lemma SetDirection_last_cases (d : Direction) (s : Snake.t) :
  Snake.lastMovedDirection (Snake.SetDirection d s) = Snake.lastMovedDirection s
  \/ Snake.lastMovedDirection (Snake.SetDirection d s) = d.
Proof.
  destruct (Snake.is_reversal d (Snake.lastMovedDirection s)
            && ((1 <? length (Snake.body s))%nat
                && negb (Direction_eqb (Snake.lastMovedDirection s) STOPPED)))
    eqn:Htest.
  - apply rejects_test in Htest. left.
    now rewrite SetDirection_rejected by assumption.
  - assert (Hacc : ~ rejects d s) by (rewrite <- rejects_test; congruence).
    rewrite SetDirection_accepted by assumption.
    cbn [Snake.lastMovedDirection]. destruct (_ || _); [right|left]; reflexivity.
Qed.

(** A snake with the body of a fresh one that heads RIGHT: the move puts
    the head on the old second segment. *)
Lemma fresh_body_right_collides (startX startY segSize : Z) (s : Snake.t) :
  Snake.body s = Snake.body (Snake.Snake startX startY segSize) ->
  Snake.segmentSize s = segSize ->
  Snake.currentDirection s = RIGHT ->
  exists s1 : Snake.t,
    Snake.Move s = Done s1
    /\ Snake.GetHeadPosition s1 = mkPosition (Int.sub startX segSize) startY
    /\ In (Snake.GetHeadPosition s1) (Snake.body s)
    /\ Snake.CheckSelfCollision s1 = true.
Proof.
  intros Hbody Hseg Hdir.
  rewrite Snake_constructor_state in Hbody. cbn [Snake.body] in Hbody.
  assert (Hnew : Snake.advance RIGHT segSize
                   (mkPosition (Int.sub startX (Int.mul 2 segSize)) startY)
                 = mkPosition (Int.sub startX segSize) startY).
  { cbn [Snake.advance x y]. f_equal.
    unfold Int.add, Int.sub, Int.mul.
    rewrite Int_wrap_add_l.
    replace (startX - Int.wrap (2 * segSize) + segSize)
      with (startX + segSize - Int.wrap (2 * segSize)) by lia.
    rewrite Int_wrap_sub_r. f_equal. lia. }
  eexists. split.
  { apply (Move_moving s
             (mkPosition (Int.sub startX (Int.mul 2 segSize)) startY)
             [mkPosition (Int.sub startX segSize) startY;
              mkPosition startX startY]);
      [rewrite Hdir; discriminate|exact Hbody]. }
  rewrite Hdir, Hseg, Hnew, Hbody.
  unfold Snake.GetHeadPosition, Snake.CheckSelfCollision.
  cbn [Snake.body]. split; [reflexivity|]. split; [right; left; reflexivity|].
  destruct (Snake.growNextMove s);
    cbn [pop_back removelast length Nat.ltb Nat.leb Nat.sub
         Snake.collision_loop nth_error x y];
    rewrite !Z.eqb_refl; cbn [andb];
    destruct ((_ =? _) && true); reflexivity.
Qed.

(** An active tick in which the moved head is not on the food. *)
Lemma Update_without_food (fuel : nat) (g : Game.t R)
      (snake snake1 : Snake.t) (food : Food.t R) :
  Game.State g = GAME_ACTIVE ->
  Game.PlayerSnake g = Some snake ->
  Game.GameFood g = Some food ->
  Snake.Move snake = Done snake1 ->
  Snake.GetHeadPosition snake1 <> Food.GetPosition food ->
  Game.Update fuel g =
  Done (Game.mk
          (if Snake.CheckSelfCollision snake1
              || Game.hits_wall (Snake.GetHeadPosition snake1)
                                (Snake.segmentSize snake1) g
           then GAME_OVER else GAME_ACTIVE)
          (Game.Keys g) (Game.Width g) (Game.Height g)
          (Some snake1) (Some food)).
Proof.
  intros Hst Hps Hgf Hmove Hfood.
  destruct g as [st keys width height ps gf].
  cbn [Game.State Game.PlayerSnake Game.GameFood Game.Keys Game.Width
       Game.Height] in *.
  subst st ps gf. unfold Game.Update.
  cbn [Game.State Game.PlayerSnake GameState_eqb negb deref bind].
  rewrite Hmove.
  cbn [bind Game.set_PlayerSnake Game.GameFood Game.State Game.Keys
       Game.Width Game.Height deref].
  replace ((x (Snake.GetHeadPosition snake1) =? x (Food.GetPosition food))
           && (y (Snake.GetHeadPosition snake1) =? y (Food.GetPosition food)))
    with false
    by (symmetry; apply not_true_is_false; intros E;
        apply coords_eqb_eq in E; contradiction).
  cbn [bind Game.PlayerSnake Game.set_PlayerSnake Game.State Game.Keys
       Game.Width Game.Height Game.GameFood deref].
  unfold Snake.GetSegmentSize, Game.hits_wall.
  destruct (Snake.CheckSelfCollision snake1);
    cbn [Game.set_State Game.set_PlayerSnake Game.State Game.Keys Game.Width
         Game.Height Game.PlayerSnake Game.GameFood orb];
    repeat match goal with
           | |- context [if ?b then _ else _] => destruct b
           end; reflexivity.
Qed.

(** X13.  A fresh game in which the first direction asked for is RIGHT
    (D or the right arrow held, A and the left arrow not) is over after
    one frame: the constructor puts the head at the left end of the body,
    [ProcessInput] turns the snake RIGHT, and the move of [Update] puts the
    head on the segment that was second, so the self-collision test ends
    the game.  This holds for every board on which [Init] returns. *)
Theorem first_move_right_ends_game
        (fuel0 fuel : nat) (rd0 rd : Z) (ind0 ind : Position)
        (g0 g : Game.t R) :
  Game.Init fuel0 rd0 ind0 g0 = Done g ->
  Game.Keys g0 GLFW_KEY_D || Game.Keys g0 GLFW_KEY_RIGHT = true ->
  Game.Keys g0 GLFW_KEY_A || Game.Keys g0 GLFW_KEY_LEFT = false ->
  exists (g1 g2 : Game.t R) (snake2 : Snake.t),
    Game.ProcessInput fuel rd ind g = Done g1
    /\ Game.Update fuel g1 = Done g2
    /\ Game.State g2 = GAME_OVER
    /\ Game.PlayerSnake g2 = Some snake2
    /\ Snake.CheckSelfCollision snake2 = true.
Proof.
  intros Hinit Hright Hleft.
  unfold Game.Init in Hinit. rewrite create_objects_result in Hinit.
  destruct (Food.GenerateNewPosition _ _ _) as [food| |] eqn:Hgen;
    cbn [bind] in Hinit; try discriminate.
  injection Hinit as <-.
  apply GenerateNewPosition_free in Hgen.
  set (cx := Int.wrap (UInt.div (Game.Width g0) 2)) in *.
  set (cy := Int.wrap (UInt.div (Game.Height g0) 2)) in *.
  set (fresh := Snake.Snake cx cy Snake.default_segmentSize) in *.
  set (g := Game.mk GAME_ACTIVE (Game.Keys g0) (Game.Width g0) (Game.Height g0)
                    (Some fresh) (Some food)).
  destruct (ProcessInput_active_result fuel rd ind g fresh eq_refl eq_refl)
    as (snake' & Hsnake' & Hrun1 & Hbody & Hseg & _).
  cbn [Game.Keys Game.State Game.Width Game.Height Game.GameFood g] in Hsnake', Hrun1.
  rewrite Hright, Hleft in Hsnake'. cbn [turn_if] in Hsnake'.
  assert (Hdir : Snake.currentDirection snake' = RIGHT).
  { rewrite Hsnake'. apply SetDirection_RIGHT_taken.
    destruct (Game.Keys g0 GLFW_KEY_S || Game.Keys g0 GLFW_KEY_DOWN),
             (Game.Keys g0 GLFW_KEY_W || Game.Keys g0 GLFW_KEY_UP);
      cbn [turn_if]; cbn; discriminate. }
  destruct (fresh_body_right_collides cx cy Snake.default_segmentSize snake'
              Hbody Hseg Hdir)
    as (snake1 & Hmove & Hhead & Hin & Hcoll).
  eexists. exists
    (Game.mk
       (if Snake.CheckSelfCollision snake1
           || Game.hits_wall (Snake.GetHeadPosition snake1)
                (Snake.segmentSize snake1)
                (Game.mk GAME_ACTIVE (Game.Keys g0) (Game.Width g0)
                         (Game.Height g0) (Some snake') (Some food))
        then GAME_OVER else GAME_ACTIVE)
       (Game.Keys g0) (Game.Width g0) (Game.Height g0)
       (Some snake1) (Some food)), snake1.
  split; [exact Hrun1|]. split.
  - apply (Update_without_food fuel
             (Game.mk GAME_ACTIVE (Game.Keys g0) (Game.Width g0)
                      (Game.Height g0) (Some snake') (Some food))
             snake' snake1 food);
      try reflexivity; [exact Hmove|].
    intros Heq. apply Hgen. unfold Food.GetPosition in Heq.
    rewrite <- Heq, <- Hbody. exact Hin.
  - cbn [Game.State Game.PlayerSnake]. rewrite Hcoll. repeat split.
Qed.

End FirstMove.

(* ================================================================= *)
(** ** Runs on the 800x600 board *)

(** The game of [main] after [Init], and two frames of it: W pressed,
    then nothing. *)
Lemma main_loop_defined_after_Init_witness :
  playable (Game.mk GAME_ACTIVE (fun _ => false) 800 600
                    (Some (Snake.Snake 400 300 20))
                    (Some (Food.mk (mkPosition 140 120) 800 600 20 642666333)))
  /\ Main.main_loop (F := Z)
       [Main.mkFrameInput [(GLFW_KEY_W, GLFW_PRESS)] 5 7 (mkPosition 0 0);
        Main.mkFrameInput [] 5 7 (mkPosition 0 0)]
       (Main.mk false
          (Game.mk GAME_ACTIVE (fun _ => false) 800 600
                   (Some (Snake.Snake 400 300 20))
                   (Some (Food.mk (mkPosition 140 120) 800 600 20 642666333))))
     <> Undefined.
Proof.
  destruct (main_loop_defined_after_Init (F := Z) 5 7 (mkPosition 0 0)
              (Game.Game Main.WIDTH Main.HEIGHT)
              (Game.mk GAME_ACTIVE (fun _ => false) 800 600
                       (Some (Snake.Snake 400 300 20))
                       (Some (Food.mk (mkPosition 140 120) 800 600 20 642666333))))
    as [Hplay Hloop]; [reflexivity|].
  split; [exact Hplay|]. apply Hloop.
Defined.

(** A held W: a press followed by a repeat.  W reads pressed, A is
    untouched; a later release makes W read released. *)
Lemma glfwPollEvents_spec_witness :
  Game.Keys
    (Main.snakeGame
       (Main.glfwPollEvents [(GLFW_KEY_W, GLFW_PRESS); (GLFW_KEY_W, GLFW_REPEAT)]
          (Main.mk false (Game.Game (R := Z) 800 600)))) GLFW_KEY_A = false
  /\ Game.Keys
       (Main.snakeGame
          (Main.glfwPollEvents
             ([] ++ (GLFW_KEY_W, GLFW_PRESS) :: [(GLFW_KEY_W, GLFW_REPEAT)])
             (Main.mk false (Game.Game (R := Z) 800 600)))) GLFW_KEY_W = true
  /\ Game.Keys
       (Main.snakeGame
          (Main.glfwPollEvents
             ([(GLFW_KEY_W, GLFW_PRESS)] ++ (GLFW_KEY_W, GLFW_RELEASE)
                :: [(GLFW_KEY_A, GLFW_PRESS)])
             (Main.mk false (Game.Game (R := Z) 800 600)))) GLFW_KEY_W = false.
Proof.
  split; [|split].
  - destruct (glfwPollEvents_spec
                [(GLFW_KEY_W, GLFW_PRESS); (GLFW_KEY_W, GLFW_REPEAT)]
                (Main.mk false (Game.Game (R := Z) 800 600)))
      as (_ & Hother & _).
    rewrite (Hother GLFW_KEY_A); [reflexivity|].
    intros ev [<-|[<-|[]]]; left; simpl; discriminate.
  - destruct (glfwPollEvents_spec []
                (Main.mk false (Game.Game (R := Z) 800 600)))
      as (_ & _ & Hlast & _).
    rewrite (Hlast GLFW_KEY_W GLFW_PRESS [(GLFW_KEY_W, GLFW_REPEAT)]);
      [reflexivity|unfold GLFW_KEY_W; lia|left; reflexivity|].
    intros ev [<-|[]]. right. intros [E|E]; discriminate E.
  - destruct (glfwPollEvents_spec [(GLFW_KEY_W, GLFW_PRESS)]
                (Main.mk false (Game.Game (R := Z) 800 600)))
      as (_ & _ & Hlast & _).
    rewrite (Hlast GLFW_KEY_W GLFW_RELEASE [(GLFW_KEY_A, GLFW_PRESS)]);
      [reflexivity|unfold GLFW_KEY_W; lia|right; reflexivity|].
    intros ev [<-|[]]. left. simpl. discriminate.
Defined.

(** Escape pressed in the first of two frames. *)
Lemma escape_ends_the_loop_witness :
  Main.main_loop (F := Z)
    [Main.mkFrameInput [(GLFW_KEY_ESCAPE, GLFW_PRESS)] 5 7 (mkPosition 0 0);
     Main.mkFrameInput [(GLFW_KEY_A, GLFW_PRESS)] 5 7 (mkPosition 0 0)]
    (Main.mk false
       (Game.mk GAME_ACTIVE (fun _ => false) 800 600
                (Some (Snake.Snake 400 300 20))
                (Some (Food.mk (mkPosition 140 120) 800 600 20 642666333))))
  = Main.loop_body (F := Z)
      (Main.mkFrameInput [(GLFW_KEY_ESCAPE, GLFW_PRESS)] 5 7 (mkPosition 0 0))
      (Main.mk false
         (Game.mk GAME_ACTIVE (fun _ => false) 800 600
                  (Some (Snake.Snake 400 300 20))
                  (Some (Food.mk (mkPosition 140 120) 800 600 20 642666333))))
  /\ Main.main_loop (F := Z)
       [Main.mkFrameInput [] 5 7 (mkPosition 0 0)]
       (Main.mk true (Game.Game (R := Z) 800 600))
     = Done (Main.mk true (Game.Game 800 600)).
Proof.
  split.
  - destruct (escape_ends_the_loop (F := Z)
                (Main.mkFrameInput [(GLFW_KEY_ESCAPE, GLFW_PRESS)] 5 7
                                   (mkPosition 0 0))
                [Main.mkFrameInput [(GLFW_KEY_A, GLFW_PRESS)] 5 7 (mkPosition 0 0)]
                (Main.mk false
                   (Game.mk GAME_ACTIVE (fun _ => false) 800 600
                            (Some (Snake.Snake 400 300 20))
                            (Some (Food.mk (mkPosition 140 120) 800 600 20
                                           642666333)))))
      as (_ & Hesc).
    apply Hesc; reflexivity.
  - destruct (escape_ends_the_loop (F := Z)
                (Main.mkFrameInput [] 5 7 (mkPosition 0 0)) []
                (Main.mk true (Game.Game (R := Z) 800 600)))
      as (Hclosed & _).
    apply Hclosed. reflexivity.
Defined.

(** W pressed on the constructed game, before [Init]. *)
Lemma calls_before_Init_undefined_witness :
  Game.ProcessInput 5 7 (mkPosition 0 0)
    (Main.snakeGame
       (Main.key_callback GLFW_KEY_W GLFW_PRESS
          (Main.mk false (Game.Game (R := Z) 800 600))))
  = Undefined.
Proof.
  destruct (calls_before_Init_undefined (R := Z) (F := Z) 800 600 5 7
              (mkPosition 0 0)) as (_ & _ & _ & Hkey).
  apply Hkey. left. reflexivity.
Defined.

(** The game of [main] with D held when the first frame runs. *)
Lemma first_move_right_ends_game_witness :
  exists (g2 : Game.t Z) (snake2 : Snake.t),
    Game.Update 5
      (Game.mk GAME_ACTIVE (fun k => k =? GLFW_KEY_D) 800 600
               (Some (Snake.SetDirection RIGHT (Snake.Snake 400 300 20)))
               (Some (Food.mk (mkPosition 140 120) 800 600 20 642666333)))
    = Done g2
    /\ Game.State g2 = GAME_OVER
    /\ Game.PlayerSnake g2 = Some snake2
    /\ Snake.CheckSelfCollision snake2 = true.
Proof.
  destruct (first_move_right_ends_game 5 5 7 7 (mkPosition 0 0) (mkPosition 0 0)
              (Game.mk GAME_ACTIVE (fun k => k =? GLFW_KEY_D) 800 600 None None)
              (Game.mk GAME_ACTIVE (fun k => k =? GLFW_KEY_D) 800 600
                       (Some (Snake.Snake 400 300 20))
                       (Some (Food.mk (mkPosition 140 120) 800 600 20 642666333))))
    as (g1 & g2 & snake2 & Hrun1 & Hrun2 & Hover & Hsnake & Hcoll);
    try reflexivity.
  injection Hrun1 as <-.
  exists g2, snake2. repeat split; assumption.
Defined.

(* ================================================================= *)
(** ** Food and walls, and the idle game *)

Section FoodInsideWalls.
Context {R : Type} `{RandomSourceLaws R}.

(** X14.  Food is never put where the wall test would fire: for a food
    built for the board of the game (positive segment size, dimensions
    non-negative [int] values), the position a returning
    [GenerateNewPosition] stores passes the wall test of [Update] made with
    that segment size. *)
Theorem food_generated_inside_walls
        (fuel : nat) (snakeBody : list Position) (f f' : Food.t R)
        (g : Game.t R) :
  0 < Food.segmentSize f ->
  0 <= Food.boardWidth f -> Int.in_range (Food.boardWidth f) ->
  0 <= Food.boardHeight f -> Int.in_range (Food.boardHeight f) ->
  Game.Width g = Food.boardWidth f ->
  Game.Height g = Food.boardHeight f ->
  Food.GenerateNewPosition fuel snakeBody f = Done f' ->
  Game.hits_wall (Food.pos f') (Food.segmentSize f) g = false.
Proof.
  intros Hseg HW0 HW HH0 HH HgW HgH Hrun.
  destruct (GenerateNewPosition_outcome fuel snakeBody f) as [_ Hvalid].
  destruct (Hvalid f' Hrun) as (_ & _ & _ & _ & HhiX & HhiY).
  pose proof (Z.quot_pos (Food.boardWidth f) (Food.segmentSize f) HW0 Hseg) as HqW0.
  pose proof (Z.quot_pos (Food.boardHeight f) (Food.segmentSize f) HH0 Hseg) as HqH0.
  assert (HqWle : Z.quot (Food.boardWidth f) (Food.segmentSize f)
                  <= Food.boardWidth f).
  { rewrite Z.quot_div_nonneg by lia.
    pose proof (Z.mul_div_le (Food.boardWidth f) (Food.segmentSize f) Hseg).
    pose proof (Z.div_pos (Food.boardWidth f) (Food.segmentSize f) HW0 Hseg).
    nia. }
  assert (HqHle : Z.quot (Food.boardHeight f) (Food.segmentSize f)
                  <= Food.boardHeight f).
  { rewrite Z.quot_div_nonneg by lia.
    pose proof (Z.mul_div_le (Food.boardHeight f) (Food.segmentSize f) Hseg).
    pose proof (Z.div_pos (Food.boardHeight f) (Food.segmentSize f) HH0 Hseg).
    nia. }
  unfold Int.in_range, Int.half_modulus in HW, HH.
  unfold Int.sub, Int.div in HhiX, HhiY.
  rewrite (Int_wrap_id (Z.quot _ _)), Int_wrap_id in HhiX
    by (unfold Int.in_range, Int.half_modulus; lia).
  rewrite (Int_wrap_id (Z.quot _ _)), Int_wrap_id in HhiY
    by (unfold Int.in_range, Int.half_modulus; lia).
  assert (HqW : 1 <= Z.quot (Food.boardWidth f) (Food.segmentSize f)) by lia.
  assert (HqH : 1 <= Z.quot (Food.boardHeight f) (Food.segmentSize f)) by lia.
  destruct (GenerateNewPosition_Done fuel snakeBody f f' Hseg
              ltac:(unfold Int.in_range, Int.half_modulus; lia)
              ltac:(unfold Int.in_range, Int.half_modulus; lia)
              HqW HqH Hrun)
    as ((cx & cy & Hcx & Hcy & Hpos) & _).
  destruct (quot_nonneg_bounds _ _ Hseg HqW) as [_ HWq].
  destruct (quot_nonneg_bounds _ _ Hseg HqH) as [_ HHq].
  rewrite hits_wall_exact.
  - apply not_true_is_false. rewrite outside_boardb_true.
    unfold outside_board. rewrite HgW, HgH, Hpos. cbn [x y]. nia.
  - rewrite Hpos. unfold representable, Int.in_range, Int.half_modulus.
    cbn [x y]. nia.
  - unfold Int.in_range, Int.half_modulus. nia.
  - lia.
Qed.

End FoodInsideWalls.

Lemma food_generated_inside_walls_witness :
  Game.hits_wall (mkPosition 140 120) 20
    (Game.mk GAME_ACTIVE (fun _ => false) 800 600
             (Some (Snake.Snake 400 300 20))
             (Some (Food.mk (mkPosition 140 120) 800 600 20 642666333)))
  = false.
Proof.
  apply (food_generated_inside_walls 5 (Snake.body (Snake.Snake 400 300 20))
           (Food.Food 800 600 20 7 (mkPosition 0 0))
           (Food.mk (mkPosition 140 120) 800 600 20 642666333));
    try reflexivity;
    unfold Int.in_range, Int.half_modulus; simpl; lia.
Defined.

Section IdleGame.
Context {R : Type} `{RandomSource R}.

Lemma fresh_snake_no_collision (cx cy : Z) :
  0 <= cx < 1073741824 ->
  Snake.CheckSelfCollision (Snake.Snake cx cy 20) = false.
Proof.
  intros Hcx. rewrite Snake_constructor_state.
  unfold Snake.CheckSelfCollision.
  cbn [Snake.body length Nat.ltb Nat.leb Nat.sub Snake.collision_loop
       nth_error x y].
  change (Int.mul 2 20) with 40. unfold Int.sub.
  rewrite !Int_wrap_id by (unfold Int.in_range, Int.half_modulus; lia).
  replace (cx - 20 =? cx - 40) with false by (symmetry; apply Z.eqb_neq; lia).
  replace (cx =? cx - 40) with false by (symmetry; apply Z.eqb_neq; lia).
  reflexivity.
Qed.

(** X15.  The game waits for the first key.  On a game just initialised
    (board dimensions non-negative [int] values) a tick with the snake
    still [STOPPED] returns the game unchanged when the board is at least
    80 wide and Height/2 + 20 does not exceed the height; on a smaller
    board, where the 3-segment snake built at the centre does not fit, the
    same tick ends the game. *)
Theorem fresh_game_idle_tick
        (fuel0 fuel : nat) (rd : Z) (indeterminate : Position)
        (g0 g : Game.t R) :
  Game.Init fuel0 rd indeterminate g0 = Done g ->
  0 <= Game.Width g0 < Int.half_modulus ->
  0 <= Game.Height g0 < Int.half_modulus ->
  Game.Update fuel g =
  Done (if (80 <=? Game.Width g0)
           && (Game.Height g0 / 2 + 20 <=? Game.Height g0)
        then g else Game.set_State GAME_OVER g).
Proof.
  unfold Int.half_modulus. intros Hinit HW HH.
  unfold Game.Init in Hinit. rewrite create_objects_result in Hinit.
  rewrite !board_center in Hinit
    by (unfold UInt.in_range, Int.modulus; lia).
  change Snake.default_segmentSize with 20 in Hinit.
  destruct (Food.GenerateNewPosition _ _ _) as [food| |] eqn:Hgen;
    cbn [bind] in Hinit; try discriminate.
  injection Hinit as <-.
  apply GenerateNewPosition_free in Hgen.
  set (cx := Game.Width g0 / 2) in *. set (cy := Game.Height g0 / 2) in *.
  assert (Hcx : 0 <= cx < 1073741824 /\ 2 * cx <= Game.Width g0 < 2 * cx + 2).
  { subst cx. pose proof (Z.div_mod (Game.Width g0) 2 ltac:(lia)).
    pose proof (Z.mod_pos_bound (Game.Width g0) 2 ltac:(lia)). lia. }
  assert (Hcy : 0 <= cy < 1073741824).
  { subst cy. pose proof (Z.div_mod (Game.Height g0) 2 ltac:(lia)).
    pose proof (Z.mod_pos_bound (Game.Height g0) 2 ltac:(lia)). lia. }
  assert (Hhead : Snake.GetHeadPosition (Snake.Snake cx cy 20)
                  = mkPosition (cx - 40) cy).
  { rewrite Snake_constructor_state. unfold Snake.GetHeadPosition.
    cbn [Snake.body]. change (Int.mul 2 20) with 40. unfold Int.sub.
    now rewrite Int_wrap_id by (unfold Int.in_range, Int.half_modulus; lia). }
  rewrite (Update_without_food fuel _ (Snake.Snake cx cy 20)
             (Snake.Snake cx cy 20) food); try reflexivity.
  2:{ intros Heq. apply Hgen. unfold Food.GetPosition in Heq. rewrite <- Heq.
      rewrite Snake_constructor_state. left. reflexivity. }
  rewrite fresh_snake_no_collision by lia. cbn [orb].
  rewrite hits_wall_exact.
  2:{ rewrite Hhead. unfold representable, Int.in_range, Int.half_modulus.
      cbn [x y]. lia. }
  2:{ unfold Int.in_range, Int.half_modulus. simpl. lia. }
  2:{ simpl. lia. }
  rewrite Hhead. unfold outside_boardb.
  cbn [x y Game.Width Game.Height Game.Keys Game.State Snake.segmentSize
       Snake.Snake Snake.set_body].
  destruct (80 <=? Game.Width g0) eqn:Hwide.
  - apply Z.leb_le in Hwide.
    replace (cx - 40 <? 0) with false by (symmetry; apply Z.ltb_ge; lia).
    replace (cx - 40 + 20 >? Game.Width g0) with false
      by (symmetry; apply not_true_is_false; rewrite Z.gtb_gt; lia).
    replace (cy <? 0) with false by (symmetry; apply Z.ltb_ge; lia).
    cbn [orb andb].
    destruct (cy + 20 <=? Game.Height g0) eqn:Hhigh.
    + apply Z.leb_le in Hhigh.
      replace (cy + 20 >? Game.Height g0) with false
        by (symmetry; apply not_true_is_false; rewrite Z.gtb_gt; lia).
      reflexivity.
    + apply Z.leb_gt in Hhigh.
      replace (cy + 20 >? Game.Height g0) with true
        by (symmetry; rewrite Z.gtb_gt; lia).
      reflexivity.
  - apply Z.leb_gt in Hwide.
    replace (cx - 40 <? 0) with true by (symmetry; apply Z.ltb_lt; lia).
    reflexivity.
Qed.

End IdleGame.

(** The 800x600 game of [main] idles; a 60x600 game is over at once. *)
Lemma fresh_game_idle_tick_witness :
  Game.Update 5
    (Game.mk GAME_ACTIVE (fun _ => false) 800 600
             (Some (Snake.Snake 400 300 20))
             (Some (Food.mk (mkPosition 140 120) 800 600 20 642666333)))
  = Done (Game.mk GAME_ACTIVE (fun _ => false) 800 600
                  (Some (Snake.Snake 400 300 20))
                  (Some (Food.mk (mkPosition 140 120) 800 600 20 642666333))).
Proof.
  apply (fresh_game_idle_tick 5 5 7 (mkPosition 0 0)
           (Game.Game 800 600)
           (Game.mk GAME_ACTIVE (fun _ => false) 800 600
                    (Some (Snake.Snake 400 300 20))
                    (Some (Food.mk (mkPosition 140 120) 800 600 20 642666333))));
    [reflexivity | |]; unfold Int.half_modulus; simpl; lia.
Defined.
